(** * unicorn2audio: frame decoder, DC filter, ring buffers and ratio controller

    A shallow embedding of [unicorn2audio.c].  Integers are [Z] with the C
    wrap-around written out ([unsigned long] is 64 bits wide, [unsigned int]
    32 bits, as on the Linux and macOS targets the file is compiled for).
    C [float] and [double] values are idealised as exact rationals [Q]:
    rounding is not modelled, so every statement about a sample value or a
    ratio is a statement about the exact arithmetic the code spells out. *)

From Stdlib Require Import ZArith QArith Qabs Lqa Lia Bool.
From Stdlib.Strings Require Import Byte.
From stdpp Require Import base list.

Local Open Scope Z_scope.

(** ** Machine integers *)

Definition wrap (w x : Z) : Z := x mod 2 ^ w.

(** [unsigned long] and [size_t] *)
Definition ulong (x : Z) : Z := wrap 64 x.

(** [unsigned int] *)
Definition uint (x : Z) : Z := wrap 32 x.

(** Conversion of an [int] to [short] (two's complement). *)
Definition to_short (x : Z) : Z := (x + 2 ^ 15) mod 2 ^ 16 - 2 ^ 15.

(** ** Constants of the source *)

Definition FSAMPLE : Z := 250.
Definition NCHAN : Z := 16.
Definition PACKETSIZE : Z := 45.
Definition BLOCKSIZE : Q := 0.01.
Definition BUFFERSIZE : Q := 2.00.
Definition DEFAULTRATE : Q := 44100.
Definition paContinue : Z := 0.

(** The macros [min], [max] and [smooth], with the comparisons the
    preprocessor expands them to. *)

Definition qlt (x y : Q) : bool :=
  match (x ?= y)%Q with Lt => true | _ => false end.

Definition cmin (x y : Q) : Q := if qlt x y then x else y.
Definition cmax (x y : Q) : Q := if qlt y x then x else y.

Definition smooth (old new lambda : Q) : Q :=
  ((1.0 - lambda) * old + lambda * new)%Q.

(** ** A quotient whose divisor may be zero

    IEEE arithmetic gives [x / 0] as an infinity of the sign of [x], and as
    a NaN when [x] is 0 too.  [fval] adds these three values to the
    rationals, with the sum and the comparison that the code applies to
    such a quotient: a comparison with a NaN on either side is false. *)

Inductive fval : Type :=
| Fin (q : Q)
| PosInf
| NegInf
| NaN.

Definition fdiv (x y : Q) : fval :=
  if Qeq_bool y 0 then
    if qlt 0 x then PosInf else if qlt x 0 then NegInf else NaN
  else Fin (x / y).

(** [a + v] for a finite [a]. *)
Definition fadd (a : Q) (v : fval) : fval :=
  match v with
  | Fin q => Fin (a + q)
  | _ => v
  end.

(** [x < y]. *)
Definition flt (x y : fval) : bool :=
  match x, y with
  | NaN, _ => false
  | _, NaN => false
  | Fin a, Fin b => qlt a b
  | _, NegInf => false
  | NegInf, _ => true
  | PosInf, _ => false
  | Fin _, PosInf => true
  end.

(** The macros [min] and [max] on such values. *)
Definition fmin (x y : fval) : fval := if flt x y then x else y.
Definition fmax (x y : fval) : fval := if flt y x then x else y.

(** The rational that a finite value is. *)
Definition fin_part (v : fval) : Q :=
  match v with
  | Fin q => q
  | _ => 0
  end.

(** ** Frame decoder: [unicorn_pull_sample] *)

Module Decoder.

(** [buf[i]], an [unsigned char] promoted to an integer. *)
Definition byte_at (buf : list byte) (i : nat) : Z :=
  Z.of_N (Byte.to_N (nth i buf x00)).

(** Body of the first loop up to the conversion to [float]: the three bytes
    of channel [ch], big-endian, in an [unsigned long], with the upper byte
    set when bit 23 is. *)
Definition eeg_val (buf : list byte) (ch : nat) : Z :=
  let val :=
    Z.lor (Z.lor (ulong (Z.shiftl (byte_at buf (3 + ch * 3)) 16))
                 (ulong (Z.shiftl (byte_at buf (4 + ch * 3)) 8)))
          (byte_at buf (5 + ch * 3)) in
  if Z.land val 0x00800000 =? 0 then val else Z.lor val 0xFF000000.

Definition eeg (buf : list byte) (ch : nat) : Q :=
  (inject_Z (eeg_val buf ch) * 4500000 / 50331642)%Q.

(** [short val = (short)buf[off] | (short)buf[off+1] << 8] *)
Definition short_val (buf : list byte) (off : nat) : Z :=
  to_short (Z.lor (byte_at buf off) (Z.shiftl (byte_at buf (off + 1)) 8)).

Definition accel (buf : list byte) (ch : nat) : Q :=
  (inject_Z (short_val buf (27 + ch * 2)) / 4096)%Q.

Definition gyro (buf : list byte) (ch : nat) : Q :=
  (inject_Z (short_val buf (33 + ch * 2)) / 32.8)%Q.

Definition battery (buf : list byte) : Q :=
  (inject_Z (Z.land (byte_at buf 2) 0x0F) * 100 / 15)%Q.

Definition counter (buf : list byte) : Z :=
  Z.lor (Z.lor (Z.lor (byte_at buf 39)
                      (ulong (Z.shiftl (byte_at buf 40) 8)))
               (ulong (Z.shiftl (byte_at buf 41) 16)))
        (ulong (Z.shiftl (byte_at buf 42) 24)).

(** What [sp_blocking_read (port, buf, PACKETSIZE, TIMEOUT)] hands back: its
    return value and the contents of [buf]. *)
Record read_t := { result : Z; buf : list byte }.

(** [None] is [return 1]: nothing is stored in [dat].  [Some dat] is
    [return 0] with the sixteen values stored in [dat]. *)
Definition unicorn_pull_sample (rd : read_t) : option (list Q) :=
  if negb (result rd =? PACKETSIZE)
     || negb (byte_at (buf rd) 0 =? 0xC0)
     || negb (byte_at (buf rd) 1 =? 0x00)
  then None
  else
    let b := buf rd in
    Some (map (eeg b) (seq 0 8)
          ++ map (accel b) (seq 0 3)
          ++ map (gyro b) (seq 0 3)
          ++ [battery b; inject_Z (counter b)]).

(** A frame with the given bytes for EEG channel 0 and zeros elsewhere,
    between the start and stop sequences. *)
Definition frame_ch0 (b0 b1 b2 : byte) : list byte :=
  [xc0; x00; x0f; b0; b1; b2] ++ replicate 37 x00 ++ [x0d; x0a].

End Decoder.

Import Decoder.

(** ** Flat float arrays

    A buffer obtained from [malloc] is a list of fixed length.  [blit] stores
    [src] at offset [off]; what would land past the end of the allocation is
    outside the modelled array and is dropped, so the length never changes
    (a single store [a[i] = v] is stdpp's [<[i:=v]>], which likewise leaves
    the list alone when [i] is out of range). *)

Definition blit (dst : list Q) (off : nat) (src : list Q) : list Q :=
  take (length dst) (take off dst ++ src ++ drop (off + length src) dst).

(** [memcpy (dst + doff, src + soff, n * sizeof (float))]; the bytes are read
    from [src] as it was before the call. *)
Definition memcpy (dst : list Q) (doff : nat) (src : list Q) (soff n : nat)
  : list Q :=
  blit dst doff (take n (drop soff src)).

(** [memset (dst + off, 0, n * sizeof (float))] *)
Definition memset0 (dst : list Q) (off n : nat) : list Q :=
  blit dst off (replicate n 0%Q).

(** ** The sample-rate converter

    [src_process] belongs to libsamplerate.  It is taken as an interface:
    a state, a transition that reports an error code, the frames consumed,
    the frames generated and the floats stored at [data_out], and the
    library's contract on a successful call. *)

Record SRC_DATA := {
  src_ratio : Q;
  end_of_input : Z;
  input_frames : Z;
  output_frames : Z;
  input_frames_used : Z;
  output_frames_gen : Z
}.

Record src_result (S : Type) := {
  src_err : Z;
  src_next : S;
  src_used : Z;
  src_gen : Z;
  src_out : list Q
}.

Arguments src_err {S} _.
Arguments src_next {S} _.
Arguments src_used {S} _.
Arguments src_gen {S} _.
Arguments src_out {S} _.

Class Resampler := {
  SRC_STATE : Type;
  (** state, channels, the request, the floats readable at [data_in] *)
  src_process : SRC_STATE -> Z -> SRC_DATA -> list Q -> src_result SRC_STATE;
  src_process_used : forall s ch d din,
    src_err (src_process s ch d din) = 0 -> 0 <= input_frames d ->
    0 <= src_used (src_process s ch d din) <= input_frames d;
  src_process_gen : forall s ch d din,
    src_err (src_process s ch d din) = 0 -> 0 <= output_frames d ->
    0 <= src_gen (src_process s ch d din) <= output_frames d;
  src_process_out : forall s ch d din,
    src_err (src_process s ch d din) = 0 ->
    length (src_out (src_process s ch d din))
    = Z.to_nat (src_gen (src_process s ch d din) * ch)
}.

(** How a call ends: it returns, or the process is ended by [exit]. *)
Inductive outcome (A : Type) : Type :=
| Returned (a : A)
| Exited (code : Z).

Arguments Returned {A} a.
Arguments Exited {A} code.

(** Conversion of an [unsigned long] to [long]. *)
Definition to_long (x : Z) : Z := (x + 2 ^ 63) mod 2 ^ 64 - 2 ^ 63.

(** The macro [min] at an integer type. *)
Definition zmin (x y : Z) : Z := if x <? y then x else y.

(** Conversion of a [float] to [int]: truncation toward zero. *)
Definition to_int (q : Q) : Z := Z.quot (Qnum q) (Z.pos (Qden q)).

Definition lambda : Q := 0.0002772.

Section Pipeline.

Context {R : Resampler}.

Record dataBuffer_t := { data : list Q; frames : Z }.

(** The file-scope variables. *)
Record globals := {
  inputData : dataBuffer_t;
  outputData : dataBuffer_t;
  resampleState : SRC_STATE;
  resampleData : SRC_DATA;
  inputRate : Q;
  outputRate : Q;
  resampleRatio : Q;
  enableResample : Z;
  enableUpdate : Z;
  channelCount : Z;
  outputBlocksize : Z;
  inputBufsize : Z;
  outputBufsize : Z;
  outputLimit : Q
}.

Definition set_inputData (g : globals) (b : dataBuffer_t) : globals :=
  {| inputData := b; outputData := outputData g;
     resampleState := resampleState g; resampleData := resampleData g;
     inputRate := inputRate g; outputRate := outputRate g;
     resampleRatio := resampleRatio g;
     enableResample := enableResample g; enableUpdate := enableUpdate g;
     channelCount := channelCount g; outputBlocksize := outputBlocksize g;
     inputBufsize := inputBufsize g; outputBufsize := outputBufsize g;
     outputLimit := outputLimit g |}.

Definition set_outputData (g : globals) (b : dataBuffer_t) : globals :=
  {| inputData := inputData g; outputData := b;
     resampleState := resampleState g; resampleData := resampleData g;
     inputRate := inputRate g; outputRate := outputRate g;
     resampleRatio := resampleRatio g;
     enableResample := enableResample g; enableUpdate := enableUpdate g;
     channelCount := channelCount g; outputBlocksize := outputBlocksize g;
     inputBufsize := inputBufsize g; outputBufsize := outputBufsize g;
     outputLimit := outputLimit g |}.

Definition set_resample (g : globals) (s : SRC_STATE) (d : SRC_DATA)
  : globals :=
  {| inputData := inputData g; outputData := outputData g;
     resampleState := s; resampleData := d;
     inputRate := inputRate g; outputRate := outputRate g;
     resampleRatio := resampleRatio g;
     enableResample := enableResample g; enableUpdate := enableUpdate g;
     channelCount := channelCount g; outputBlocksize := outputBlocksize g;
     inputBufsize := inputBufsize g; outputBufsize := outputBufsize g;
     outputLimit := outputLimit g |}.

Definition set_resampleRatio (g : globals) (r : Q) : globals :=
  {| inputData := inputData g; outputData := outputData g;
     resampleState := resampleState g; resampleData := resampleData g;
     inputRate := inputRate g; outputRate := outputRate g;
     resampleRatio := r;
     enableResample := enableResample g; enableUpdate := enableUpdate g;
     channelCount := channelCount g; outputBlocksize := outputBlocksize g;
     inputBufsize := inputBufsize g; outputBufsize := outputBufsize g;
     outputLimit := outputLimit g |}.

Definition set_enable (g : globals) (r u : Z) : globals :=
  {| inputData := inputData g; outputData := outputData g;
     resampleState := resampleState g; resampleData := resampleData g;
     inputRate := inputRate g; outputRate := outputRate g;
     resampleRatio := resampleRatio g;
     enableResample := r; enableUpdate := u;
     channelCount := channelCount g; outputBlocksize := outputBlocksize g;
     inputBufsize := inputBufsize g; outputBufsize := outputBufsize g;
     outputLimit := outputLimit g |}.

Definition set_outputLimit (g : globals) (l : Q) : globals :=
  {| inputData := inputData g; outputData := outputData g;
     resampleState := resampleState g; resampleData := resampleData g;
     inputRate := inputRate g; outputRate := outputRate g;
     resampleRatio := resampleRatio g;
     enableResample := enableResample g; enableUpdate := enableUpdate g;
     channelCount := channelCount g; outputBlocksize := outputBlocksize g;
     inputBufsize := inputBufsize g; outputBufsize := outputBufsize g;
     outputLimit := l |}.

(** *** [resample_buffers] *)

(** The fields of [resampleData] set before the two tests ([data_in] is
    [inputData.data]; [data_out] is given to [blit] as an offset). *)
Definition request (g : globals) : SRC_DATA :=
  {| src_ratio := resampleRatio g;
     end_of_input := 0;
     input_frames := to_long (frames (inputData g));
     output_frames :=
       to_long (ulong (outputBufsize g - frames (outputData g)));
     input_frames_used := input_frames_used (resampleData g);
     output_frames_gen := output_frames_gen (resampleData g) |}.

Definition resample_buffers (g : globals) : outcome globals :=
  let d := request g in
  (* data_out = outputData.data + outputData.frames * channelCount *)
  let data_out := Z.to_nat (ulong (frames (outputData g) * channelCount g)) in
  let g := set_resample g (resampleState g) d in
  if frames (inputData g) =? 0 then Returned g
  else if frames (outputData g) =? ulong (outputBufsize g) then Returned g
  else
    let r := src_process (resampleState g) (channelCount g) d
                         (data (inputData g)) in
    if negb (src_err r =? 0) then Exited (src_err r)
    else
      let d' := {| src_ratio := src_ratio d;
                   end_of_input := end_of_input d;
                   input_frames := input_frames d;
                   output_frames := output_frames d;
                   input_frames_used := src_used r;
                   output_frames_gen := src_gen r |} in
      let out := {| data := blit (data (outputData g)) data_out (src_out r);
                    frames := ulong (frames (outputData g) + src_gen r) |} in
      let len :=
        ulong (ulong (frames (inputData g) - src_used r) * channelCount g) in
      let inp := {| data := memcpy (data (inputData g)) 0
                                   (data (inputData g))
                                   (Z.to_nat (to_long (src_used r * channelCount g)))
                                   (Z.to_nat len);
                    frames := ulong (frames (inputData g) - src_used r) |} in
      Returned (set_inputData
                  (set_outputData (set_resample g (src_next r) d') out) inp).

(** *** [update_ratio]

    [outputBlocksize] is [blockSize * outputRate] converted to [int], and is
    0 for a block size of 0 at the prompt.  The division by it is [fdiv]:
    [estimate] is then an infinity or a NaN, and the two clamps that follow,
    which are the macros [min] and [max] with their comparisons, bring it
    back to one of the bounds.  What the clamps return is finite whatever
    the quotient ([clamped_finite]), and [fin_part] reads it.  [inputRate]
    is [FSAMPLE] in every state that [main] builds. *)

Definition update_ratio (g : globals) : globals :=
  let fill := inject_Z (frames (outputData g)) in
  let bufsize := inject_Z (outputBufsize g) in
  let nominal := (outputRate g / inputRate g)%Q in
  let estimate :=
    fadd nominal
         (fdiv (0.5 * bufsize - fill)%Q (inject_Z (outputBlocksize g))) in
  let estimate := fmin estimate (Fin (1.2 * nominal)%Q) in
  let estimate := fmax estimate (Fin (0.8 * nominal)%Q) in
  let estimate := fin_part estimate in
  let verylow := (0.40 * bufsize)%Q in
  let low := (0.48 * bufsize)%Q in
  let high := (0.52 * bufsize)%Q in
  let veryhigh := (0.60 * bufsize)%Q in
  set_resampleRatio g
    (if qlt fill verylow then
       smooth (resampleRatio g) estimate (10 * BLOCKSIZE)%Q
     else if qlt fill low then
       smooth (resampleRatio g) estimate (1 * BLOCKSIZE)%Q
     else if qlt high fill then
       smooth (resampleRatio g) estimate (1 * BLOCKSIZE)%Q
     else if qlt veryhigh fill then
       smooth (resampleRatio g) estimate (10 * BLOCKSIZE)%Q
     else
       smooth (resampleRatio g) nominal (10 * BLOCKSIZE)%Q).

(** *** [output_callback]

    [drain] is the callback up to and including the loop over the emitted
    samples: the two copies, the zero fill, the new frame count and
    [outputLimit].  [output] is the destination as PortAudio hands it over. *)

Definition drain (g : globals) (output : list Q) (frameCount : Z)
  : list Q * globals :=
  let od := outputData g in
  let newFrames := uint (zmin frameCount (frames od)) in
  let emitted := Z.to_nat (uint (newFrames * channelCount g)) in
  let output := memcpy output 0 (data od) 0 emitted in
  let len := ulong (ulong (frameCount - newFrames) * channelCount g) in
  let output := memset0 output emitted (Z.to_nat len) in
  let len := ulong (ulong (frames od - newFrames) * channelCount g) in
  let od' := {| data := memcpy (data od) 0 (data od) emitted (Z.to_nat len);
                frames := ulong (frames od - newFrames) |} in
  let limit :=
    fold_left (fun l i => cmax l (Qabs (nth i output 0%Q)))
              (seq 0 emitted) (outputLimit g) in
  (output, set_outputLimit (set_outputData g od') limit).

Definition output_callback (g : globals) (output : list Q) (frameCount : Z)
  : outcome (list Q * globals * Z) :=
  let '(output, g) := drain g output frameCount in
  match (if enableResample g =? 0 then Returned g else resample_buffers g) with
  | Exited code => Exited code
  | Returned g =>
      let g := if enableUpdate g =? 0 then g else update_ratio g in
      Returned (output, g, paContinue)
  end.

(** *** [main]: the producer

    [eegdata], [eegfilt] and [samplesReceived] are locals of [main]. *)

Record locals := {
  eegdata : list Q;
  eegfilt : list Q;
  samplesReceived : Z
}.

(** [for (i...) eegfilt[i] = eegdata[i];] *)
Definition init_filter (cc : Z) (filt dat : list Q) : list Q :=
  fold_left (fun filt i => <[i := nth i dat 0%Q]> filt)
            (seq 0 (Z.to_nat cc)) filt.

(** [for (i...) eegdata[i] -= smooth(eegfilt[i], eegdata[i], lambda);] *)
Definition lowpass (cc : Z) (filt dat : list Q) : list Q :=
  fold_left
    (fun dat i =>
       <[i := (nth i dat 0 - smooth (nth i filt 0) (nth i dat 0) lambda)%Q]> dat)
    (seq 0 (Z.to_nat cc)) dat.

(** One turn of the loop that adds the current sample to the input buffer. *)
Definition store_channel (dat : list Q) (g : globals) (i : nat) : globals :=
  let limit := cmax (outputLimit g) (Qabs (nth i dat 0%Q)) in
  let idx :=
    Z.to_nat (ulong (frames (inputData g) * channelCount g + Z.of_nat i)) in
  set_inputData (set_outputLimit g limit)
    {| data := <[idx := (nth i dat 0 / limit)%Q]> (data (inputData g));
       frames := frames (inputData g) |}.

(** The loop, then [inputData.frames++]. *)
Definition append_sample (dat : list Q) (g : globals) : globals :=
  let g := fold_left (store_channel dat)
                     (seq 0 (Z.to_nat (channelCount g))) g in
  set_inputData g {| data := data (inputData g);
                     frames := ulong (frames (inputData g) + 1) |}.

(** The body shared by the loop that fills the buffer and the loop that
    processes data.  [None] is [goto cleanup4]. *)
Definition loop_body (g : globals) (l : locals) (rd : read_t)
  : option (globals * locals) :=
  match unicorn_pull_sample rd with
  | None => None
  | Some dat =>
      let dat := lowpass (channelCount g) (eegfilt l) dat in
      Some (append_sample dat g,
            {| eegdata := dat;
               eegfilt := eegfilt l;
               samplesReceived := ulong (samplesReceived l + 1) |})
  end.

(** The serial port is the list of the reads still to come; a list that
    runs dry is a read that times out. *)

(** [while (samplesReceived<5*FSAMPLE)] *)
Fixpoint flush (l : locals) (port : list read_t)
  : option (locals * list read_t) :=
  if samplesReceived l <? 5 * FSAMPLE then
    match port with
    | [] => None
    | rd :: port =>
        match unicorn_pull_sample rd with
        | None => None
        | Some dat =>
            flush {| eegdata := dat;
                     eegfilt := eegfilt l;
                     samplesReceived := ulong (samplesReceived l + 1) |} port
        end
    end
  else Some (l, port).

(** The sample that follows the flush: it initialises the filter and is
    filtered itself. *)
Definition first_sample (cc : Z) (l : locals) (port : list read_t)
  : option (locals * list read_t) :=
  match port with
  | [] => None
  | rd :: port =>
      match unicorn_pull_sample rd with
      | None => None
      | Some dat =>
          let filt := init_filter cc (eegfilt l) dat in
          Some ({| eegdata := lowpass cc filt dat;
                   eegfilt := filt;
                   samplesReceived := samplesReceived l |}, port)
      end
  end.

(** [while (samplesReceived<inputBufsize/2)] *)
Fixpoint fill_buffer (g : globals) (l : locals) (port : list read_t)
  : option (globals * locals * list read_t) :=
  if samplesReceived l <? ulong (Z.quot (inputBufsize g) 2) then
    match port with
    | [] => None
    | rd :: port =>
        match loop_body g l rd with
        | None => None
        | Some (g, l) => fill_buffer g l port
        end
    end
  else Some (g, l, port).

(** [resampleRatio = outputRate / inputRate] and the two flags. *)
Definition start_running (g : globals) : globals :=
  set_enable (set_resampleRatio g (outputRate g / inputRate g)%Q) 1 1.

(** Stage 4 of [main] up to the loop that processes data. *)
Definition startup (g : globals) (l : locals) (port : list read_t)
  : option (globals * locals * list read_t) :=
  match flush l port with
  | None => None
  | Some (l, port) =>
      let l := {| eegdata := eegdata l; eegfilt := eegfilt l;
                  samplesReceived := 0 |} in
      match first_sample (channelCount g) l port with
      | None => None
      | Some (l, port) =>
          match fill_buffer g l port with
          | None => None
          | Some (g, l, port) => Some (start_running g, l, port)
          end
      end
  end.

(** Stages 1 to 3: the settings and the two zeroed buffers. *)
Definition init_globals (bufferSize blockSize rate : Q) (cc : Z)
    (s : SRC_STATE) : globals :=
  let inputRate := inject_Z FSAMPLE in
  let inputBufsize := to_int (bufferSize * inputRate)%Q in
  let outputBufsize := to_int (bufferSize * rate)%Q in
  {| inputData := {| data := replicate (Z.to_nat (inputBufsize * cc)) 0%Q;
                     frames := 0 |};
     outputData := {| data := replicate (Z.to_nat (outputBufsize * cc)) 0%Q;
                      frames := 0 |};
     resampleState := s;
     resampleData := {| src_ratio := 0; end_of_input := 0;
                        input_frames := 0; output_frames := 0;
                        input_frames_used := 0; output_frames_gen := 0 |};
     inputRate := inputRate;
     outputRate := rate;
     resampleRatio := 0;
     enableResample := 0;
     enableUpdate := 0;
     channelCount := cc;
     outputBlocksize := to_int (blockSize * rate)%Q;
     inputBufsize := inputBufsize;
     outputBufsize := outputBufsize;
     outputLimit := 1 |}.

Definition init_locals : locals :=
  {| eegdata := replicate (Z.to_nat NCHAN) 0%Q;
     eegfilt := replicate (Z.to_nat NCHAN) 0%Q;
     samplesReceived := 0 |}.

(** *** The running pipeline

    While [main] processes data, the two things that happen are a turn of
    its loop and a call of [output_callback] by PortAudio.  Each is taken as
    one step; a run ends at the first step that leaves the loop or ends the
    process, and is in the state reached until then.  A run is thus an
    interleaving of whole turns and whole calls.  The callback runs on a
    thread of its own and the code has no lock: what the two threads can do
    to [outputLimit] when their accesses interleave inside a turn or a
    call is the subject of [Race] below. *)

Inductive event : Type :=
| Pull (rd : read_t)
| Callback (output : list Q) (frameCount : Z).

Definition step (s : globals * locals) (e : event)
  : option (globals * locals) :=
  match e with
  | Pull rd => loop_body (fst s) (snd s) rd
  | Callback output frameCount =>
      match output_callback (fst s) output frameCount with
      | Returned (_, g, _) => Some (g, snd s)
      | Exited _ => None
      end
  end.

Fixpoint run (s : globals * locals) (evs : list event) : globals * locals :=
  match evs with
  | [] => s
  | e :: evs =>
      match step s e with
      | Some s' => run s' evs
      | None => s
      end
  end.

End Pipeline.

(** ** Well-formed configurations

    [malloc] is given [bufsize * channelCount * sizeof (float)] with the
    product taken in [int], and PortAudio opens a stream only for a positive
    channel count, which the prompt caps at 8. *)

Definition INT_MAX : Z := 2 ^ 31 - 1.

Section WellFormed.

Context {R : Resampler}.

Definition config_ok (g : globals) : Prop :=
  1 <= channelCount g <= 8
  /\ 0 <= inputBufsize g /\ inputBufsize g * channelCount g <= INT_MAX
  /\ 0 <= outputBufsize g /\ outputBufsize g * channelCount g <= INT_MAX.

(** A buffer of capacity [cap] frames that holds [frames] of them. *)
Definition buffer_ok (cc cap : Z) (b : dataBuffer_t) : Prop :=
  0 <= frames b <= cap /\ Z.of_nat (length (data b)) = cap * cc.

Definition input_ok (g : globals) : Prop :=
  buffer_ok (channelCount g) (inputBufsize g) (inputData g).

Definition output_ok (g : globals) : Prop :=
  buffer_ok (channelCount g) (outputBufsize g) (outputData g).

(** What [resample_buffers] and [output_callback] have no business with. *)
Definition same_settings (g g' : globals) : Prop :=
  inputRate g' = inputRate g /\ outputRate g' = outputRate g
  /\ enableResample g' = enableResample g
  /\ enableUpdate g' = enableUpdate g
  /\ channelCount g' = channelCount g
  /\ outputBlocksize g' = outputBlocksize g
  /\ inputBufsize g' = inputBufsize g
  /\ outputBufsize g' = outputBufsize g.

(** The local [nominal] of [update_ratio], and its [estimate] after the
    two clamps. *)
Definition nominal (g : globals) : Q := (outputRate g / inputRate g)%Q.

Definition estimate (g : globals) : Q :=
  fin_part
    (fmax (fmin (fadd (nominal g)
                      (fdiv (0.5 * inject_Z (outputBufsize g)
                             - inject_Z (frames (outputData g)))%Q
                            (inject_Z (outputBlocksize g))))
                (Fin (1.2 * nominal g)%Q))
          (Fin (0.8 * nominal g)%Q)).

Definition ratio_in_range (g : globals) : Prop :=
  (0.8 * nominal g <= resampleRatio g <= 1.2 * nominal g)%Q.

End WellFormed.

(** ** A converter to run the pipeline with

    It hands over as many frames as fit, one for one, whatever the ratio.
    It stands in for libsamplerate where a statement is evaluated on
    concrete data. *)

Definition copy_process (s : unit) (ch : Z) (d : SRC_DATA) (din : list Q)
  : src_result unit :=
  let k := Z.max 0 (Z.min (input_frames d) (output_frames d)) in
  let n := Z.to_nat (k * ch) in
  {| src_err := 0; src_next := tt; src_used := k; src_gen := k;
     src_out := take n (din ++ replicate n 0%Q) |}.

#[export, refine] Instance copy_resampler : Resampler :=
  {| SRC_STATE := unit; src_process := copy_process |}.
Proof.
  - intros s ch d din _ H. cbn. lia.
  - intros s ch d din _ H. cbn. lia.
  - intros s ch d din _. cbn.
    rewrite length_take, length_app, length_replicate. lia.
Defined.

(** The settings the prompts offer: 2 s of buffer, blocks of 0.01 s,
    44100 Hz, 8 channels. *)
Definition default_globals : globals :=
  init_globals BUFFERSIZE BLOCKSIZE DEFAULTRATE 8 tt.

(** The state [g] with [n] frames in the output buffer. *)
Definition with_fill (g : globals) (n : Z) : globals :=
  set_outputData g {| data := data (outputData g); frames := n |}.

(** Settings with small buffers: 0.02 s of buffer, blocks of 0.01 s,
    8000 Hz, 2 channels (5 input frames, 160 output frames). *)
Definition small_globals : globals :=
  init_globals 0.02 0.01 8000 2 tt.

(** A port that delivers [n] frames in which EEG channel 0 is one count. *)
Definition steady_port (n : nat) : list read_t :=
  replicate n {| result := 45; buf := frame_ch0 x00 x00 x01 |}.

(** Settings with a block size of 0, which PortAudio takes as "any": 0.02 s
    of buffer, 44100 Hz, 2 channels (882 output frames). *)
Definition zero_block_globals : globals :=
  init_globals 0.02 0 44100 2 tt.

(** The globals once [startup] has run on a steady port of [n] frames. *)
Definition primed (g : globals) (n : nat) : globals :=
  match startup g init_locals (steady_port n) with
  | Some (g', _, _) => g'
  | None => g
  end.

(** ** The filter as the specification words it

    [baseline_n = (1 - lambda) * baseline_(n-1) + lambda * x_n] and
    [y_n = x_n - baseline_n], from the baseline before the first sample of
    [xs]; the result is the list of the [y_n]. *)
Fixpoint spec_highpass (baseline : Q) (xs : list Q) : list Q :=
  match xs with
  | [] => []
  | x :: xs =>
      let baseline := smooth baseline x lambda in
      (x - baseline)%Q :: spec_highpass baseline xs
  end.

(** What the producer leaves in [eegdata[0]] at each turn of its loop. *)
Fixpoint emitted `{Resampler} (g : globals) (l : locals) (port : list read_t)
  : list Q :=
  match port with
  | [] => []
  | rd :: port =>
      match loop_body g l rd with
      | None => []
      | Some (g, l) => nth 0 (eegdata l) 0%Q :: emitted g l port
      end
  end.

(** One count of the EEG converter, in microvolt. *)
Definition one_count : Q := (inject_Z 1 * 4500000 / 50331642)%Q.

(** ** The frame as the device sends it

    The inverse of the decoder, byte for byte, used to state round trips:
    the low eight bits of an integer as a byte, and the big-endian and
    little-endian layouts of the wire format. *)

Definition byte_of_Z (z : Z) : byte :=
  match Byte.of_N (Z.to_N (z mod 256)) with
  | Some b => b
  | None => x00
  end.

Definition be24 (n : Z) : list byte :=
  [byte_of_Z (n / 65536); byte_of_Z (n / 256); byte_of_Z n].

Definition le16 (n : Z) : list byte :=
  [byte_of_Z n; byte_of_Z (n / 256)].

Definition le32 (n : Z) : list byte :=
  [byte_of_Z n; byte_of_Z (n / 256); byte_of_Z (n / 65536);
   byte_of_Z (n / 16777216)].

(** Status byte, eight EEG counts, three accelerometer and three gyroscope
    counts, packet counter. *)
Definition encode_frame (status : Z) (eegs accs gyrs : list Z) (cnt : Z)
  : list byte :=
  [xc0; x00; byte_of_Z status]
  ++ concat (map be24 eegs)
  ++ concat (map le16 accs)
  ++ concat (map le16 gyrs)
  ++ le32 cnt ++ [x0d; x0a].

(** What the decoder makes of a count the device sent as 24 bits. *)
Definition eeg_count (n : Z) : Z := if 0 <=? n then n else n + 2 ^ 32.

(** A read that [unicorn_pull_sample] accepts. *)
Definition good (rd : read_t) : bool :=
  match unicorn_pull_sample rd with Some _ => true | None => false end.

(** The frames [startup] takes from the port: 1250 to flush, one to start
    the filter, and half the input buffer. *)
Definition startup_frames `{Resampler} (g : globals) : nat :=
  (1251 + Z.to_nat (Z.quot (inputBufsize g) 2))%nat.

(** The fill and the capacity of the output buffer as [update_ratio] reads
    them. *)
Definition fill `{Resampler} (g : globals) : Q :=
  inject_Z (frames (outputData g)).

Definition capacity `{Resampler} (g : globals) : Q :=
  inject_Z (outputBufsize g).

(** A call of the callback as PortAudio makes it: a frame count and a
    destination of that many frames. *)
Definition event_ok (cc : Z) (e : event) : Prop :=
  match e with
  | Pull _ => True
  | Callback output frameCount =>
      0 <= frameCount /\ frameCount * cc < 2 ^ 64
      /\ Z.of_nat (length output) = frameCount * cc
  end.

(** The turns of the producer loop among the events. *)
Fixpoint pulls (evs : list event) : nat :=
  match evs with
  | [] => 0
  | Pull _ :: evs => S (pulls evs)
  | Callback _ _ :: evs => pulls evs
  end.

(** ** [unicorn2lsl.c]: [rand_str]

    [charset] is the array the function declares: the ten digits, the
    twenty-six lower-case letters and the terminating NUL, 37 bytes in
    all. *)

Module Lsl.

Definition charset : list byte :=
  [x30; x31; x32; x33; x34; x35; x36; x37; x38; x39;
   x61; x62; x63; x64; x65; x66; x67; x68; x69; x6a; x6b; x6c; x6d;
   x6e; x6f; x70; x71; x72; x73; x74; x75; x76; x77; x78; x79; x7a;
   x00].

(** [(double) rand() / RAND_MAX * (sizeof charset - 1)], converted to
    [size_t], for a value [r] of [rand()]. *)
Definition rand_index (RAND_MAX r : Z) : Z :=
  to_int (inject_Z r / inject_Z RAND_MAX
          * inject_Z (Z.of_nat (length charset) - 1))%Q.

(** The loop and the final [*dest = 0].  [rand k] is what the [k]-th call
    of [rand()] returns, [dest] the array the caller passes and [pos] the
    offset [dest] has advanced to. *)
Fixpoint rand_str_from (RAND_MAX : Z) (rand : nat -> Z) (k : nat)
    (dest : list byte) (pos length : nat) : list byte :=
  match length with
  | O => <[pos := x00]> dest
  | S length =>
      let index := rand_index RAND_MAX (rand k) in
      rand_str_from RAND_MAX rand (S k)
        (<[pos := nth (Z.to_nat index) charset x00]> dest) (S pos) length
  end.

Definition rand_str (RAND_MAX : Z) (rand : nat -> Z) (dest : list byte)
    (length : nat) : list byte :=
  rand_str_from RAND_MAX rand 0 dest 0 length.

(** [strlen]: the bytes before the first NUL. *)
Fixpoint strlen (s : list byte) : nat :=
  match s with
  | [] => 0
  | c :: s => if Byte.eqb c x00 then 0 else S (strlen s)
  end.

End Lsl.

(** ** Stage 1 of [main]: the default serial port

    A C string is the list of its bytes before the NUL.  [strstr] is taken
    as the test the source makes of it: whether [needle] occurs in [hay]. *)

Fixpoint starts_with (needle hay : list byte) : bool :=
  match needle, hay with
  | [], _ => true
  | _ :: _, [] => false
  | n :: needle, h :: hay => Byte.eqb n h && starts_with needle hay
  end.

Fixpoint strstr (hay needle : list byte) : bool :=
  starts_with needle hay
  || match hay with
     | [] => false
     | _ :: hay => strstr hay needle
     end.

(** Name and description of a port, as [sp_get_port_name] and
    [sp_get_port_description] return them. *)
Record sp_port := { port_name : list byte; port_description : list byte }.

(** The string "UN". *)
Definition UN : list byte := [x55; x4e].

Definition looks_like_unicorn (p : sp_port) : bool :=
  strstr (port_name p) UN || strstr (port_description p) UN.

(** The loop over [port_list], from index [i] with [inputDevice] as it is
    then. *)
Fixpoint scan_ports (port_list : list sp_port) (i inputDevice : Z) : Z :=
  match port_list with
  | [] => inputDevice
  | p :: port_list =>
      scan_ports port_list (i + 1)
                 (if looks_like_unicorn p then i else inputDevice)
  end.

(** [inputDevice] when the prompt is reached. *)
Definition default_port (port_list : list sp_port) : Z :=
  scan_ports port_list 0 0.

(** [outputLimit] once the loop of [append_sample] has handled channels
    [0] to [n - 1] of [dat], from the value [l]. *)
Definition raised (l : Q) (dat : list Q) (n : nat) : Q :=
  fold_left (fun l j => cmax l (Qabs (nth j dat 0%Q))) (seq 0 n) l.

(** ** The two threads on [outputLimit]

    PortAudio runs [output_callback] on a thread of its own, and nothing
    orders its accesses to [outputLimit] with those of [main].  The
    assignment [outputLimit = max(outputLimit, m)] is, with the macro
    [max(x, y) ((x)>(y) ? x : y)], a read of [outputLimit] for the
    comparison, a second read when the comparison holds, and a store;
    [main] reads [outputLimit] once more for the division in the statement
    that follows.  A thread is a list of such statements and the place it
    has reached in the first of them; a schedule names the thread that makes
    the next access. *)

Module Race.

Inductive thread : Type := Main | Audio.

Inductive stmt : Type :=
| Raise (m : Q)     (* outputLimit = max(outputLimit, m); *)
| Divide (x : Q).   (* inputData.data[...] = x / outputLimit; *)

Inductive pc : Type :=
| Ready             (* between two statements *)
| Again             (* outputLimit > m held: outputLimit is read again *)
| Store (v : Q).    (* the right-hand side is [v]: it is stored next *)

Record task := { todo : list stmt; at_pc : pc }.

Record machine := {
  limit : Q;          (* outputLimit *)
  main : task;
  audio : task;
  stored : list Q     (* the floats [main] has stored, the latest first *)
}.

(** One access of a thread to [outputLimit], which holds [l]: the new
    value of [outputLimit], the thread after it, and the float that a
    division stores. *)
Definition access (l : Q) (t : task) : Q * task * option Q :=
  match at_pc t, todo t with
  | Ready, [] => (l, t, None)
  | Ready, Raise m :: _ =>
      (l, {| todo := todo t; at_pc := if qlt m l then Again else Store m |},
       None)
  | Ready, Divide x :: rest =>
      (l, {| todo := rest; at_pc := Ready |}, Some (x / l)%Q)
  | Again, _ => (l, {| todo := todo t; at_pc := Store l |}, None)
  | Store v, _ => (v, {| todo := tl (todo t); at_pc := Ready |}, None)
  end.

Definition turn (m : machine) (t : thread) : machine :=
  match t with
  | Main =>
      let '(l, k, w) := access (limit m) (main m) in
      {| limit := l; main := k; audio := audio m;
         stored := match w with
                   | Some v => v :: stored m
                   | None => stored m
                   end |}
  | Audio =>
      let '(l, k, _) := access (limit m) (audio m) in
      {| limit := l; main := main m; audio := k; stored := stored m |}
  end.

Definition exec (m : machine) (sched : list thread) : machine :=
  fold_left turn sched m.


Definition audio_call (out : list Q) : list stmt :=
  map (fun x => Raise (Qabs x)) out.









End Race.

(** * Properties *)

(** ** Frame decoder *)

Section DecoderFacts.

Lemma byte_at_range (b : list byte) (i : nat) : 0 <= byte_at b i <= 255.
Proof.
  unfold byte_at. pose proof (Byte.to_N_bounded (nth i b x00)). lia.
Qed.

Lemma ulong_nonneg (x : Z) : 0 <= ulong x.
Proof. unfold ulong, wrap. apply Z.mod_pos_bound. lia. Qed.

Lemma eeg_val_nonneg (b : list byte) (ch : nat) : 0 <= eeg_val b ch.
Proof.
  unfold eeg_val.
  pose proof (byte_at_range b (5 + ch * 3)).
  pose proof (ulong_nonneg (Z.shiftl (byte_at b (3 + ch * 3)) 16)).
  pose proof (ulong_nonneg (Z.shiftl (byte_at b (4 + ch * 3)) 8)).
  match goal with |- context [Z.land ?v _] => assert (Hv : 0 <= v) end.
  { repeat (apply Z.lor_nonneg; split); lia. }
  destruct (_ =? 0); [exact Hv|].
  apply Z.lor_nonneg; split; [exact Hv | lia].
Qed.

Lemma eeg_nonneg (b : list byte) (ch : nat) : (0 <= eeg b ch)%Q.
Proof.
  unfold eeg. pose proof (eeg_val_nonneg b ch) as H.
  assert (0 <= inject_Z (eeg_val b ch))%Q as H'.
  { change 0%Q with (inject_Z 0). now rewrite <- Zle_Qle. }
  unfold Qdiv. apply Qmult_le_0_compat; [lra | discriminate].
Qed.

Lemma nth_take_lt (b : list byte) (n i : nat) :
  (i < n)%nat -> nth i (take n b) x00 = nth i b x00.
Proof.
  revert b i. induction n as [|n IH]; intros [|x b] [|i] Hi; simpl;
    try lia; try reflexivity.
  apply IH. lia.
Qed.

Lemma byte_at_take (b : list byte) (n i : nat) :
  (i < n)%nat -> byte_at (take n b) i = byte_at b i.
Proof. intros Hi. unfold byte_at. now rewrite nth_take_lt. Qed.

(** The decoder reads bytes 0 to 42 and no other. *)
Lemma unicorn_pull_sample_take (r : Z) (b : list byte) :
  unicorn_pull_sample {| result := r; buf := take 43 b |}
  = unicorn_pull_sample {| result := r; buf := b |}.
Proof.
  unfold unicorn_pull_sample, eeg, eeg_val, accel, gyro, short_val, battery,
    counter.
  cbn [result buf map seq app].
  rewrite !byte_at_take by lia. reflexivity.
Qed.

End DecoderFacts.

(** C1 (the code departs from the claim).  The 24-bit value is assembled in
    an [unsigned long]; setting the upper byte gives a value between
    [0xFF800000] and [0xFFFFFFFF], which the conversion to [float] takes as
    it is.  No frame decodes to a negative EEG value: the bytes [FF FF FF]
    give 4294967295 and about 3.84e8 microvolt where the claim has -1 and
    -0.0894, and [80 00 00] decodes above [7F FF FF]. *)
Theorem C1_eeg_sign_extension_lost :
  (forall (b : list byte) (ch : nat), 0 <= eeg_val b ch /\ (0 <= eeg b ch)%Q)
  /\ eeg_val (frame_ch0 xff xff xff) 0 = 4294967295
  /\ (exists dat,
        unicorn_pull_sample {| result := 45; buf := frame_ch0 xff xff xff |}
        = Some dat
        /\ nth 0 dat 0%Q == 4294967295 * 4500000 / 50331642
        /\ (383999999 < nth 0 dat 0%Q)%Q)
  /\ eeg_val (frame_ch0 x80 x00 x00) 0 = 4286578688
  /\ eeg_val (frame_ch0 x7f xff xff) 0 = 8388607
  /\ (eeg (frame_ch0 x7f xff xff) 0 < eeg (frame_ch0 x80 x00 x00) 0)%Q.
Proof.
  split; [intros b ch; split; [apply eeg_val_nonneg | apply eeg_nonneg]|].
  split; [reflexivity|].
  split.
  { eexists. split; [vm_compute; reflexivity|].
    split; vm_compute; reflexivity. }
  repeat split; vm_compute; reflexivity.
Qed.

(** C9.  [unicorn_pull_sample] returns 1 and stores nothing exactly when the
    read did not deliver the 45 bytes, or byte 0 is not [0xC0], or byte 1 is
    not [0x00] ([sp_blocking_read] never returns more than it was asked
    for); two reads that agree on the return value and on bytes 0 to 42
    succeed or fail together and decode to the same sixteen values, whatever
    bytes 43 and 44 are. *)
Theorem C9_pull_sample_failure (rd : read_t) :
  result rd <= PACKETSIZE ->
  (unicorn_pull_sample rd = None
   <-> (result rd < 45
        \/ byte_at (buf rd) 0 <> 0xC0
        \/ byte_at (buf rd) 1 <> 0x00))
  /\ (forall dat, unicorn_pull_sample rd = Some dat -> length dat = 16%nat)
  /\ (forall rd' : read_t,
        result rd' = result rd ->
        take 43 (buf rd') = take 43 (buf rd) ->
        unicorn_pull_sample rd' = unicorn_pull_sample rd).
Proof.
  intros Hres. unfold PACKETSIZE in Hres. split; [|split].
  - unfold unicorn_pull_sample, PACKETSIZE.
    destruct (Z.eqb_spec (result rd) 45) as [E|E];
      destruct (Z.eqb_spec (byte_at (buf rd) 0) 0xC0) as [E0|E0];
      destruct (Z.eqb_spec (byte_at (buf rd) 1) 0x00) as [E1|E1];
      cbn [negb orb]; split; intros H;
      try discriminate; try reflexivity; try lia;
      try (right; left; assumption); try (right; right; assumption);
      try (left; lia).
    all: destruct H as [H|[H|H]]; try lia; contradiction.
  - intros dat. unfold unicorn_pull_sample.
    destruct (_ || _); [discriminate|].
    intros [= <-]. reflexivity.
  - intros [r' b'] Hr Hb. destruct rd as [r b]. cbn [result buf] in *.
    subst r'.
    rewrite <- (unicorn_pull_sample_take r b'), <- (unicorn_pull_sample_take r b).
    now rewrite Hb.
Qed.

(** C9 at a well-formed frame whose trailer is not the stop sequence. *)
Lemma C9_pull_sample_failure_witness :
  unicorn_pull_sample
    {| result := 45; buf := take 43 (frame_ch0 x00 x00 x01) ++ [xff; xff] |}
  = unicorn_pull_sample {| result := 45; buf := frame_ch0 x00 x00 x01 |}.
Proof.
  refine (proj2 (proj2 (C9_pull_sample_failure
            {| result := 45; buf := frame_ch0 x00 x00 x01 |} _)) _ _ _).
  - vm_compute. discriminate.
  - reflexivity.
  - reflexivity.
Defined.

(** A frame in which EEG channel 0 is one count and the battery nibble is
    15: channel 0 is 4500000/50331642 microvolt (about 0.0894), the other EEG
    channels, the accelerometer and the gyroscope are 0, the battery is 100
    and the counter 0. *)
Example decode_one_count :
  match unicorn_pull_sample
          {| result := 45; buf := frame_ch0 x00 x00 x01 |} with
  | Some dat =>
      nth 0 dat 0%Q == 4500000 / 50331642
      /\ (0.0894 < nth 0 dat 0 < 0.0895)%Q
      /\ Forall (fun x => x == 0) (take 13 (drop 1 dat))
      /\ nth 14 dat 0%Q == 100
      /\ nth 15 dat 0%Q == 0
  | None => False
  end.
Proof.
  vm_compute. repeat split; try discriminate.
  repeat constructor.
Qed.

(** The accelerometer and the gyroscope go through a signed [short]: the
    bytes [FF FF] at offset 27 decode to -1, that is -1/4096 g. *)
Example decode_accel_negative :
  accel ([xc0; x00; x0f] ++ replicate 24 x00 ++ [xff; xff]
         ++ replicate 14 x00 ++ [x0d; x0a]) 0
  == - (1 / 4096).
Proof. vm_compute. reflexivity. Qed.

(** ** Arrays and machine integers *)

Section Arrays.

Lemma ulong_small (x : Z) : 0 <= x < 2 ^ 64 -> ulong x = x.
Proof. intros H. unfold ulong, wrap. now apply Z.mod_small. Qed.

Lemma uint_small (x : Z) : 0 <= x < 2 ^ 32 -> uint x = x.
Proof. intros H. unfold uint, wrap. now apply Z.mod_small. Qed.

Lemma to_long_small (x : Z) : 0 <= x < 2 ^ 63 -> to_long x = x.
Proof. intros H. unfold to_long. rewrite Z.mod_small; lia. Qed.

Lemma zmin_min (x y : Z) : zmin x y = Z.min x y.
Proof. unfold zmin. destruct (Z.ltb_spec x y); lia. Qed.

Lemma length_blit (dst : list Q) (off : nat) (src : list Q) :
  length (blit dst off src) = length dst.
Proof.
  unfold blit.
  rewrite length_take, !length_app, length_take, length_drop. lia.
Qed.

Lemma blit_fits (dst : list Q) (off : nat) (src : list Q) :
  (off + length src <= length dst)%nat ->
  blit dst off src = take off dst ++ src ++ drop (off + length src) dst.
Proof.
  intros H. unfold blit. apply take_ge.
  rewrite !length_app, length_take, length_drop. lia.
Qed.

Lemma length_memcpy (dst : list Q) (doff : nat) (src : list Q) (soff n : nat) :
  length (memcpy dst doff src soff n) = length dst.
Proof. apply length_blit. Qed.

(** Moving [n] floats from offset [soff] to the front of the same array. *)
Lemma memcpy_front (a : list Q) (soff n : nat) :
  (soff + n <= length a)%nat ->
  memcpy a 0 a soff n = take n (drop soff a) ++ drop n a.
Proof.
  intros H. unfold memcpy.
  assert (length (take n (drop soff a)) = n) as Hl.
  { rewrite length_take, length_drop. lia. }
  rewrite blit_fits by (rewrite Hl; lia).
  rewrite Hl. reflexivity.
Qed.

(** A destination of [n + z] floats after the copy of [n] floats and the
    zero fill of the [z] that remain. *)
Lemma memcpy_memset0 (dst src : list Q) (n z : nat) :
  length dst = (n + z)%nat -> (n <= length src)%nat ->
  memset0 (memcpy dst 0 src 0 n) n z = take n src ++ replicate z 0%Q.
Proof.
  intros Hd Hs. unfold memset0, memcpy. rewrite drop_0.
  assert (length (take n src) = n) as Hl by (rewrite length_take; lia).
  rewrite (blit_fits dst) by (rewrite Hl; lia).
  rewrite Hl, take_0, Nat.add_0_l, app_nil_l.
  rewrite blit_fits.
  - rewrite take_app_length' by (symmetry; exact Hl).
    rewrite length_replicate, drop_ge, app_nil_r; [reflexivity|].
    rewrite length_app, Hl, length_drop. lia.
  - rewrite length_replicate, length_app, Hl, length_drop. lia.
Qed.

End Arrays.

(** ** The macros *)

Section Macros.

Lemma qlt_spec (x y : Q) : reflect (x < y)%Q (qlt x y).
Proof.
  unfold qlt. destruct (x ?= y)%Q eqn:E; constructor.
  - apply Qeq_alt in E. rewrite E. apply Qlt_irrefl.
  - now apply Qlt_alt.
  - apply Qgt_alt in E. intros H. apply Qlt_irrefl with x.
    now apply Qlt_trans with y.
Qed.

Lemma cmax_l (x y : Q) : (x <= cmax x y)%Q.
Proof. unfold cmax. destruct (qlt_spec y x); lra. Qed.

Lemma cmax_r (x y : Q) : (y <= cmax x y)%Q.
Proof. unfold cmax. destruct (qlt_spec y x); lra. Qed.

Lemma cmax_lub (x y z : Q) : (x <= z -> y <= z -> cmax x y <= z)%Q.
Proof. unfold cmax. destruct (qlt_spec y x); intros; assumption. Qed.

Lemma cmin_r (x y : Q) : (cmin x y <= y)%Q.
Proof. unfold cmin. destruct (qlt_spec x y); lra. Qed.

(** The two clamps of [update_ratio] leave a value between the bounds. *)
Lemma clamp_range (e n : Q) :
  (0 <= n)%Q ->
  (0.8 * n <= cmax (cmin e (1.2 * n)) (0.8 * n) <= 1.2 * n)%Q.
Proof.
  intros Hn. split; [apply cmax_r|].
  apply cmax_lub; [apply cmin_r | lra].
Qed.

(** A divisor that is not zero gives the quotient, and zero gives an
    infinity of the sign of the numerator, or a NaN. *)
Lemma fdiv_nonzero (x y : Q) : ~ (y == 0)%Q -> fdiv x y = Fin (x / y).
Proof.
  intros H. unfold fdiv. destruct (Qeq_bool y 0) eqn:E; [|reflexivity].
  apply Qeq_bool_eq in E. contradiction.
Qed.

Lemma fdiv_zero (x y : Q) :
  (y == 0)%Q ->
  ((0 < x)%Q -> fdiv x y = PosInf)
  /\ ((x < 0)%Q -> fdiv x y = NegInf)
  /\ ((x == 0)%Q -> fdiv x y = NaN).
Proof.
  intros H. unfold fdiv. rewrite (Qeq_eq_bool _ _ H).
  destruct (qlt_spec 0 x), (qlt_spec x 0); repeat split; intros;
    try reflexivity; lra.
Qed.

(** The two clamps on a finite value are the clamps of the rationals; on
    the other values they return one of the bounds. *)
Lemma clamped_fin (e lo hi : Q) :
  fmax (fmin (Fin e) (Fin hi)) (Fin lo) = Fin (cmax (cmin e hi) lo).
Proof.
  unfold fmax, fmin, cmax, cmin. cbn [flt].
  destruct (qlt e hi); cbn [flt]; destruct (qlt lo _); reflexivity.
Qed.

Lemma clamped_finite (v : fval) (lo hi : Q) :
  fmax (fmin v (Fin hi)) (Fin lo)
  = Fin (match v with
         | Fin e => cmax (cmin e hi) lo
         | NegInf => lo
         | PosInf | NaN => cmax hi lo
         end).
Proof.
  destruct v as [e| | |]; [apply clamped_fin| | |];
    unfold fmax, fmin, cmax; cbn [flt]; try reflexivity;
    destruct (qlt lo hi); reflexivity.
Qed.

Lemma clamped_range (v : fval) (n : Q) :
  (0 <= n)%Q ->
  (0.8 * n
   <= fin_part (fmax (fmin v (Fin (1.2 * n))) (Fin (0.8 * n)))
   <= 1.2 * n)%Q.
Proof.
  intros Hn. rewrite clamped_finite. cbn [fin_part].
  destruct v as [e| | |].
  - apply clamp_range. exact Hn.
  - split; [apply cmax_r | apply cmax_lub; lra].
  - lra.
  - split; [apply cmax_r | apply cmax_lub; lra].
Qed.

(** [smooth] with a coefficient between 0 and 1 stays between its
    arguments' bounds. *)
Lemma smooth_range (lo hi old new k : Q) :
  (0 <= k <= 1)%Q -> (lo <= old <= hi)%Q -> (lo <= new <= hi)%Q ->
  (lo <= smooth old new k <= hi)%Q.
Proof.
  intros Hk Ho Hn. unfold smooth.
  assert (0 <= (1 - k) * (old - lo))%Q by (apply Qmult_le_0_compat; lra).
  assert (0 <= k * (new - lo))%Q by (apply Qmult_le_0_compat; lra).
  assert (0 <= (1 - k) * (hi - old))%Q by (apply Qmult_le_0_compat; lra).
  assert (0 <= k * (hi - new))%Q by (apply Qmult_le_0_compat; lra).
  split; lra.
Qed.

Lemma fold_cmax_ge {A : Type} (f : A -> Q) (xs : list A) (l0 : Q) :
  (l0 <= fold_left (fun l x => cmax l (f x)) xs l0)%Q.
Proof.
  revert l0. induction xs as [|x xs IH]; intros l0; cbn [fold_left].
  - lra.
  - apply Qle_trans with (cmax l0 (f x)); [apply cmax_l | apply IH].
Qed.

End Macros.

(** ** Ratio controller *)

Section Controller.

Context {R : Resampler}.

Lemma update_ratio_same (g : globals) :
  same_settings g (update_ratio g)
  /\ inputData (update_ratio g) = inputData g
  /\ outputData (update_ratio g) = outputData g
  /\ outputLimit (update_ratio g) = outputLimit g.
Proof. unfold same_settings. cbn. tauto. Qed.

Lemma update_ratio_in_range (g : globals) :
  (0 <= nominal g)%Q -> ratio_in_range g -> ratio_in_range (update_ratio g).
Proof.
  intros Hn Hr. unfold ratio_in_range, nominal in *.
  cbn [update_ratio set_resampleRatio resampleRatio outputRate inputRate].
  pose proof (clamped_range
    (fadd (outputRate g / inputRate g)
          (fdiv (0.5 * inject_Z (outputBufsize g)
                 - inject_Z (frames (outputData g)))
                (inject_Z (outputBlocksize g)))) _ Hn) as Hc.
  assert (0 <= 10 * BLOCKSIZE <= 1)%Q as H10 by (unfold BLOCKSIZE; lra).
  assert (0 <= 1 * BLOCKSIZE <= 1)%Q as H1 by (unfold BLOCKSIZE; lra).
  repeat match goal with |- context [if ?b then _ else _] => destruct b end;
    apply smooth_range; try assumption; lra.
Qed.

(** C4 (the code departs from the claim).  A fill above [0.60 * capacity]
    is also above [0.52 * capacity], and [update_ratio] tests the latter
    first: the ratio moves toward the clamped estimate with the slow
    coefficient [1 * BLOCKSIZE]; the branch with [10 * BLOCKSIZE] that
    follows is never taken. *)
Theorem C4_veryhigh_uses_slow_coefficient (g : globals) :
  0 <= outputBufsize g ->
  (0.60 * inject_Z (outputBufsize g) < inject_Z (frames (outputData g)))%Q ->
  resampleRatio (update_ratio g)
  = smooth (resampleRatio g) (estimate g) (1 * BLOCKSIZE)%Q.
Proof.
  intros Hb Hf.
  assert (0 <= inject_Z (outputBufsize g))%Q as Hb'.
  { change 0%Q with (inject_Z 0). now rewrite <- Zle_Qle. }
  cbn [update_ratio set_resampleRatio resampleRatio].
  destruct (qlt_spec (inject_Z (frames (outputData g)))
                     (0.40 * inject_Z (outputBufsize g))); [lra|].
  destruct (qlt_spec (inject_Z (frames (outputData g)))
                     (0.48 * inject_Z (outputBufsize g))); [lra|].
  destruct (qlt_spec (0.52 * inject_Z (outputBufsize g))
                     (inject_Z (frames (outputData g)))); [|lra].
  reflexivity.
Qed.

End Controller.

(** C4 at a fill of 60000 frames out of 88200, with the ratio at its nominal
    value 176.4: the new ratio is 176.0472, where the fast coefficient would
    give 172.872. *)
Lemma C4_veryhigh_uses_slow_coefficient_witness :
  (resampleRatio (update_ratio (with_fill (start_running default_globals) 60000))
   == 176.0472)%Q
  /\ ~ (smooth 176.4 141.12 (10 * BLOCKSIZE) == 176.0472)%Q.
Proof.
  split.
  - rewrite (C4_veryhigh_uses_slow_coefficient
               (with_fill (start_running default_globals) 60000)).
    + vm_compute. reflexivity.
    + vm_compute. discriminate.
    + vm_compute. reflexivity.
  - vm_compute. discriminate.
Defined.

(** A fill of 10000 frames out of 88200, far below 40 percent: the
    estimate is clamped to [1.2 * 176.4 = 211.68] and the ratio moves toward
    it with the fast coefficient. *)
Example update_ratio_underfilled :
  (resampleRatio (update_ratio (with_fill (start_running default_globals) 10000))
   == 0.9 * 176.4 + 0.1 * 211.68)%Q.
Proof. vm_compute. reflexivity. Qed.

(** A fill of exactly half: the target is the nominal ratio, with the fast
    coefficient, and a ratio that is nominal stays so. *)
Example update_ratio_centred :
  (resampleRatio (update_ratio (with_fill (start_running default_globals) 44100))
   == 176.4)%Q.
Proof. vm_compute. reflexivity. Qed.

(** ** What each operation leaves alone *)

Section Frames.

Context {R : Resampler}.

Lemma same_settings_refl (g : globals) : same_settings g g.
Proof. unfold same_settings. tauto. Qed.

Lemma same_settings_trans (g1 g2 g3 : globals) :
  same_settings g1 g2 -> same_settings g2 g3 -> same_settings g1 g3.
Proof. unfold same_settings. intuition congruence. Qed.

Lemma nominal_same (g g' : globals) :
  same_settings g g' -> nominal g' = nominal g.
Proof. unfold same_settings, nominal. intros (-> & -> & _). reflexivity. Qed.

(** The producer's store loop. *)
Lemma store_loop_frame (dat : list Q) (chs : list nat) (g : globals) :
  let g' := fold_left (store_channel dat) chs g in
  same_settings g g'
  /\ resampleRatio g' = resampleRatio g
  /\ outputData g' = outputData g
  /\ frames (inputData g') = frames (inputData g)
  /\ length (data (inputData g')) = length (data (inputData g))
  /\ (outputLimit g <= outputLimit g')%Q.
Proof.
  revert g. induction chs as [|i chs IH]; intros g; cbn [fold_left].
  - pose proof (same_settings_refl g). repeat split; try tauto; lra.
  - destruct (IH (store_channel dat g i)) as (Hs & Hr & Ho & Hf & Hl & Hm).
    cbv zeta. split; [|split; [|split; [|split; [|split]]]].
    + eapply same_settings_trans; [|exact Hs]. unfold same_settings. cbn. tauto.
    + rewrite Hr. reflexivity.
    + rewrite Ho. reflexivity.
    + rewrite Hf. reflexivity.
    + rewrite Hl. cbn. apply length_insert.
    + eapply Qle_trans; [|exact Hm]. cbn. apply cmax_l.
Qed.

Lemma append_sample_frame (dat : list Q) (g : globals) :
  let g' := append_sample dat g in
  same_settings g g'
  /\ resampleRatio g' = resampleRatio g
  /\ outputData g' = outputData g
  /\ frames (inputData g') = ulong (frames (inputData g) + 1)
  /\ length (data (inputData g')) = length (data (inputData g))
  /\ (outputLimit g <= outputLimit g')%Q.
Proof.
  destruct (store_loop_frame dat (seq 0 (Z.to_nat (channelCount g))) g)
    as (Hs & Hr & Ho & Hf & Hl & Hm).
  unfold append_sample. cbv zeta.
  split; [|split; [|split; [|split; [|split]]]].
  - eapply same_settings_trans; [exact Hs|]. unfold same_settings. cbn. tauto.
  - cbn. exact Hr.
  - cbn. exact Ho.
  - cbn. rewrite Hf. reflexivity.
  - cbn. exact Hl.
  - cbn. exact Hm.
Qed.

Lemma loop_body_frame (g g' : globals) (l l' : locals) (rd : read_t) :
  loop_body g l rd = Some (g', l') ->
  same_settings g g'
  /\ resampleRatio g' = resampleRatio g
  /\ outputData g' = outputData g
  /\ frames (inputData g') = ulong (frames (inputData g) + 1)
  /\ (outputLimit g <= outputLimit g')%Q
  /\ eegfilt l' = eegfilt l.
Proof.
  unfold loop_body. destruct (unicorn_pull_sample rd) as [dat|]; [|discriminate].
  intros [= <- <-].
  destruct (append_sample_frame (lowpass (channelCount g) (eegfilt l) dat) g)
    as (Hs & Hr & Ho & Hf & _ & Hm).
  cbn [eegfilt]. tauto.
Qed.

(** A turn of the loop fails only when the read or the framing does. *)
Lemma loop_body_total (g : globals) (l : locals) (rd : read_t) :
  unicorn_pull_sample rd <> None -> loop_body g l rd <> None.
Proof.
  unfold loop_body. destruct (unicorn_pull_sample rd); [discriminate | tauto].
Qed.

Lemma drain_frame (g : globals) (output : list Q) (frameCount : Z) :
  let g' := snd (drain g output frameCount) in
  same_settings g g'
  /\ resampleRatio g' = resampleRatio g
  /\ inputData g' = inputData g
  /\ resampleState g' = resampleState g
  /\ (outputLimit g <= outputLimit g')%Q.
Proof.
  unfold drain, same_settings. cbn.
  repeat split. apply fold_cmax_ge.
Qed.

Lemma resample_buffers_frame (g g' : globals) :
  resample_buffers g = Returned g' ->
  same_settings g g'
  /\ resampleRatio g' = resampleRatio g
  /\ outputLimit g' = outputLimit g.
Proof.
  unfold resample_buffers. cbv zeta.
  cbn [set_resample inputData outputData outputBufsize channelCount
       resampleState].
  destruct (_ =? 0).
  { intros [= <-]. unfold same_settings. cbn. tauto. }
  destruct (_ =? _).
  { intros [= <-]. unfold same_settings. cbn. tauto. }
  destruct (negb _); [discriminate|].
  intros [= <-]. unfold same_settings. cbn. tauto.
Qed.

Lemma output_callback_frame (g g' : globals) (output dest : list Q)
    (frameCount code : Z) :
  output_callback g output frameCount = Returned (dest, g', code) ->
  same_settings g g'
  /\ (outputLimit g <= outputLimit g')%Q
  /\ ((0 <= nominal g)%Q -> ratio_in_range g -> ratio_in_range g')
  /\ dest = fst (drain g output frameCount)
  /\ code = paContinue.
Proof.
  unfold output_callback.
  pose proof (drain_frame g output frameCount) as Hd.
  destruct (drain g output frameCount) as [d g1]. cbn [snd fst] in *.
  destruct Hd as (Hs1 & Hr1 & _ & _ & Hm1).
  assert (forall g2, (if enableResample g1 =? 0 then Returned g1
                      else resample_buffers g1) = Returned g2 ->
            same_settings g1 g2 /\ resampleRatio g2 = resampleRatio g1
            /\ outputLimit g2 = outputLimit g1) as Hres.
  { intros g2. destruct (_ =? 0).
    - intros [= <-]. pose proof (same_settings_refl g1). tauto.
    - apply resample_buffers_frame. }
  destruct (if enableResample g1 =? 0 then _ else _) as [g2|]; [|discriminate].
  destruct (Hres g2 eq_refl) as (Hs2 & Hr2 & Hm2).
  intros [= <- <- <-].
  assert (same_settings g g2) as Hs by (eapply same_settings_trans; eassumption).
  assert (ratio_in_range g -> ratio_in_range g2) as Hrange.
  { unfold ratio_in_range. rewrite (nominal_same _ _ Hs), Hr2, Hr1. tauto. }
  destruct (enableUpdate g2 =? 0).
  - rewrite Hm2. tauto.
  - destruct (update_ratio_same g2) as (Hs3 & _ & _ & Hm3).
    split; [eapply same_settings_trans; eassumption|].
    split; [rewrite Hm3, Hm2; exact Hm1|].
    split; [|tauto].
    intros Hn Hr. apply update_ratio_in_range.
    + rewrite (nominal_same _ _ Hs). exact Hn.
    + apply Hrange. exact Hr.
Qed.

Lemma step_frame (s s' : globals * locals) (e : event) :
  step s e = Some s' ->
  same_settings (fst s) (fst s')
  /\ (outputLimit (fst s) <= outputLimit (fst s'))%Q
  /\ ((0 <= nominal (fst s))%Q ->
      ratio_in_range (fst s) -> ratio_in_range (fst s'))
  /\ eegfilt (snd s') = eegfilt (snd s).
Proof.
  destruct s as [g l], s' as [g' l'], e as [rd|output frameCount];
    cbn [step fst snd].
  - intros H. apply loop_body_frame in H.
    destruct H as (Hs & Hr & _ & _ & Hm & Hf).
    unfold ratio_in_range. rewrite (nominal_same _ _ Hs), Hr. tauto.
  - destruct (output_callback g output frameCount) as [[[d g2] c]|] eqn:E;
      [|discriminate].
    intros [= <- <-]. apply output_callback_frame in E. tauto.
Qed.

Lemma run_frame (evs : list event) (s : globals * locals) :
  same_settings (fst s) (fst (run s evs))
  /\ (outputLimit (fst s) <= outputLimit (fst (run s evs)))%Q
  /\ ((0 <= nominal (fst s))%Q ->
      ratio_in_range (fst s) -> ratio_in_range (fst (run s evs)))
  /\ eegfilt (snd (run s evs)) = eegfilt (snd s).
Proof.
  revert s. induction evs as [|e evs IH]; intros s; cbn [run].
  - split; [apply same_settings_refl|].
    split; [apply Qle_refl|]. split; [tauto | reflexivity].
  - destruct (step s e) as [s'|] eqn:E.
    + apply step_frame in E. destruct E as (Hs & Hm & Hr & Hf).
      destruct (IH s') as (Hs' & Hm' & Hr' & Hf').
      split; [eapply same_settings_trans; eassumption|].
      split; [eapply Qle_trans; eassumption|].
      split; [|congruence].
      intros Hn H. apply Hr'; [|tauto].
      rewrite (nominal_same _ _ Hs). exact Hn.
    + split; [apply same_settings_refl|].
      split; [apply Qle_refl|]. split; [tauto | reflexivity].
Qed.

End Frames.

(** ** Sessions *)

Section Sessions.

Context {R : Resampler}.

Lemma fill_buffer_frame (port : list read_t) (g : globals) (l : locals) :
  match fill_buffer g l port with
  | Some (g', l', _) =>
      same_settings g g' /\ resampleRatio g' = resampleRatio g
      /\ (outputLimit g <= outputLimit g')%Q /\ eegfilt l' = eegfilt l
  | None => True
  end.
Proof.
  revert g l. induction port as [|rd port IH]; intros g l; cbn [fill_buffer].
  - destruct (_ <? _); [exact I|].
    split; [apply same_settings_refl|]. split; [reflexivity|].
    split; [apply Qle_refl | reflexivity].
  - destruct (_ <? _).
    + destruct (loop_body g l rd) as [[g1 l1]|] eqn:E; [|exact I].
      apply loop_body_frame in E. destruct E as (Hs & Hr & _ & _ & Hm & Hf).
      specialize (IH g1 l1).
      destruct (fill_buffer g1 l1 port) as [[[g2 l2] p2]|]; [|exact I].
      destruct IH as (Hs' & Hr' & Hm' & Hf').
      split; [eapply same_settings_trans; eassumption|].
      split; [congruence|].
      split; [eapply Qle_trans; eassumption | congruence].
    + split; [apply same_settings_refl|]. split; [reflexivity|].
      split; [apply Qle_refl | reflexivity].
Qed.


(** C5.  [start_running] sets [resampleRatio] to [outputRate / inputRate];
    from there on, whatever turns of the producer loop and calls of the
    callback follow, with whatever fill levels, the ratio is between 0.8 and
    1.2 times that nominal value (for a sink rate that is not negative). *)
Theorem C5_ratio_stays_within_bounds (g : globals) (l : locals)
    (evs : list event) :
  (0 <= outputRate g / inputRate g)%Q ->
  resampleRatio (start_running g) = (outputRate g / inputRate g)%Q
  /\ (0.8 * (outputRate g / inputRate g)
      <= resampleRatio (fst (run (start_running g, l) evs))
      <= 1.2 * (outputRate g / inputRate g))%Q.
Proof.
  intros Hn. split; [reflexivity|].
  destruct (run_frame evs (start_running g, l)) as (Hs & _ & H & _).
  cbn [fst] in H, Hs. unfold ratio_in_range in H.
  rewrite (nominal_same _ _ Hs) in H.
  unfold nominal in H. cbn in H. apply H; lra.
Qed.

(** The same from the start of a session: [startup] ends in
    [start_running]. *)
Lemma startup_ratio_in_range (g g' : globals) (l l' : locals)
    (port port' : list read_t) (evs : list event) :
  (0 <= nominal g)%Q ->
  startup g l port = Some (g', l', port') ->
  nominal g' = nominal g
  /\ resampleRatio g' = nominal g
  /\ ratio_in_range (fst (run (g', l') evs)).
Proof.
  intros Hn. unfold startup.
  destruct (flush l port) as [[l1 p1]|]; [|discriminate].
  destruct (first_sample _ _ p1) as [[l2 p2]|]; [|discriminate].
  pose proof (fill_buffer_frame p2 g l2) as H.
  destruct (fill_buffer g l2 p2) as [[[g3 l3] p3]|]; [|discriminate].
  destruct H as (Hs & _). intros [= <- <- <-].
  assert (nominal (start_running g3) = nominal g) as Hnom.
  { rewrite <- (nominal_same _ _ Hs). reflexivity. }
  assert (resampleRatio (start_running g3) = nominal g) as Hr.
  { rewrite <- (nominal_same _ _ Hs). reflexivity. }
  split; [exact Hnom|]. split; [exact Hr|].
  apply (run_frame evs (start_running g3, l3)); cbn [fst].
  - rewrite Hnom. exact Hn.
  - unfold ratio_in_range. rewrite Hnom, Hr. lra.
Qed.

(** Turns of the producer with no callback in between: each good frame adds
    one to the input count, whatever the capacity. *)
Lemma run_pulls_frames (port : list read_t) (g : globals) (l : locals) :
  Forall (fun rd => unicorn_pull_sample rd <> None) port ->
  0 <= frames (inputData g) ->
  frames (inputData g) + Z.of_nat (length port) < 2 ^ 64 ->
  frames (inputData (fst (run (g, l) (map Pull port))))
  = frames (inputData g) + Z.of_nat (length port)
  /\ inputBufsize (fst (run (g, l) (map Pull port))) = inputBufsize g.
Proof.
  revert g l. induction port as [|rd port IH]; intros g l Hall Hf Hlen.
  - cbn. lia.
  - inversion Hall as [|? ? Hrd Hall']; subst.
    cbn [map run step fst snd length] in *.
    destruct (loop_body g l rd) as [[g1 l1]|] eqn:E.
    + apply loop_body_frame in E.
      destruct E as (Hs & _ & _ & Hfr & _).
      rewrite ulong_small in Hfr by lia.
      destruct (IH g1 l1 Hall') as (IH1 & IH2); [lia | lia |].
      destruct Hs as (_ & _ & _ & _ & _ & _ & Hib & _).
      rewrite IH1, IH2, Hfr, Hib. lia.
    + exfalso. revert E. apply loop_body_total. exact Hrd.
Qed.

End Sessions.

(** C2 (the code departs from the claim).  [eegfilt] is assigned once, from
    the sample that follows the flush, and read ever after: no turn of the
    filling loop or of the processing loop stores a new baseline.  With a
    first sample of 0 and two samples of one count, the code emits the same
    value twice, [(1 - lambda)] counts, where the recurrence of the claim
    gives [(1 - lambda)^2] counts the second time. *)
Theorem C2_baseline_never_updated :
  (forall (R : Resampler) (g : @globals R) l port,
      match fill_buffer g l port with
      | Some (_, l', _) => eegfilt l' = eegfilt l
      | None => True
      end)
  /\ (forall (R : Resampler) (s : @globals R * locals) evs,
        eegfilt (snd (run s evs)) = eegfilt (snd s))
  /\ match first_sample 8 init_locals
              [{| result := 45; buf := frame_ch0 x00 x00 x00 |}] with
     | Some (l, _) =>
         nth 0 (eegfilt l) 0%Q == 0
         /\ Forall2 Qeq
              (emitted default_globals l (steady_port 2))
              [(1 - lambda) * one_count; (1 - lambda) * one_count]%Q
     | None => False
     end
  /\ Forall2 Qeq
       (spec_highpass 0 [one_count; one_count])
       [(1 - lambda) * one_count;
        (1 - lambda) * (1 - lambda) * one_count]%Q
  /\ ~ ((1 - lambda) * (1 - lambda) * one_count
        == (1 - lambda) * one_count)%Q.
Proof.
  split.
  { intros R g l port. pose proof (fill_buffer_frame port g l) as H.
    destruct (fill_buffer g l port) as [[[g' l'] p]|]; tauto. }
  split; [intros R s evs; apply (run_frame evs s)|].
  split; [vm_compute; repeat constructor|].
  split; [vm_compute; repeat constructor|].
  vm_compute. discriminate.
Qed.

(** C5 on the default settings, for a callback, a turn of the producer and a
    second callback. *)
Lemma C5_ratio_stays_within_bounds_witness :
  let evs := [Callback (replicate 3528 0%Q) 441;
              Pull {| result := 45; buf := frame_ch0 x00 x00 x01 |};
              Callback (replicate 3528 0%Q) 441] in
  (0.8 * (outputRate default_globals / inputRate default_globals)
   <= resampleRatio (fst (run (start_running default_globals, init_locals) evs))
   <= 1.2 * (outputRate default_globals / inputRate default_globals))%Q.
Proof.
  intros evs.
  refine (proj2 (C5_ratio_stays_within_bounds default_globals init_locals evs _)).
  vm_compute. discriminate.
Defined.

(** C3 (the code departs from the claim).  The producer stores a frame at
    index [inputData.frames] and increments the count without comparing it
    with [inputBufsize]; only the output side is guarded, by the two tests
    of [resample_buffers].  On the default settings the buffer holds 500
    frames and is filled to 250 when the stream starts; 251 turns of the
    producer loop with no callback in between leave a count of 501, with
    the stores of the last turn outside of the allocation. *)
Theorem C3_input_count_exceeds_capacity :
  match startup default_globals init_locals (steady_port 1501) with
  | Some (g, l, _) =>
      let s := run (g, l) (map Pull (steady_port 251)) in
      inputBufsize g = 500
      /\ frames (inputData g) = 250
      /\ inputBufsize (fst s) = 500
      /\ frames (inputData (fst s)) = 501
      /\ Z.of_nat (length (data (inputData (fst s)))) = 500 * 8
  | None => False
  end.
Proof. vm_compute. repeat split. Qed.

(** ** Consumer: the callback and the converter glue *)

Section Consumer.

Context {R : Resampler}.

(** The callback up to the loop over the emitted samples. *)
Lemma drain_spec (g : globals) (output : list Q) (frameCount : Z) :
  config_ok g -> output_ok g ->
  0 <= frameCount -> frameCount * channelCount g < 2 ^ 64 ->
  Z.of_nat (length output) = frameCount * channelCount g ->
  let cc := channelCount g in
  let f := frames (outputData g) in
  let m := Z.min frameCount f in
  fst (drain g output frameCount)
  = take (Z.to_nat (m * cc)) (data (outputData g))
    ++ replicate (Z.to_nat ((frameCount - m) * cc)) 0%Q
  /\ frames (outputData (snd (drain g output frameCount))) = f - m
  /\ data (outputData (snd (drain g output frameCount)))
     = take (Z.to_nat ((f - m) * cc))
            (drop (Z.to_nat (m * cc)) (data (outputData g)))
       ++ drop (Z.to_nat ((f - m) * cc)) (data (outputData g)).
Proof.
  intros (Hcc & _ & _ & Hob & Hom) (Hf & Hlen) Hfc Hfcc Hout cc f m.
  unfold INT_MAX in Hom.
  unfold drain. cbn [fst snd set_outputLimit set_outputData outputData frames data].
  rewrite zmin_min. fold f m cc.
  fold cc in Hcc, Hom, Hlen, Hout, Hfcc. fold f in Hf.
  assert (outputBufsize g <= 2 ^ 31 - 1) as Hob' by nia.
  assert (0 <= m <= f /\ m <= frameCount) as (Hm & Hm') by lia.
  assert (0 <= m * cc <= f * cc) as Hmc by nia.
  assert (f * cc <= outputBufsize g * cc) as Hfc' by nia.
  assert (m * cc <= frameCount * cc) as Hmf by nia.
  rewrite (uint_small m) by lia.
  rewrite (uint_small (m * cc)) by lia.
  rewrite (ulong_small (frameCount - m)) by nia.
  rewrite (ulong_small ((frameCount - m) * cc)) by nia.
  rewrite (ulong_small (f - m)) by lia.
  rewrite (ulong_small ((f - m) * cc)) by nia.
  split; [|split; [reflexivity|]].
  - apply memcpy_memset0; nia.
  - apply memcpy_front. nia.
Qed.

Lemma resample_buffers_noop (g : globals) :
  config_ok g ->
  frames (inputData g) = 0 \/ frames (outputData g) = outputBufsize g ->
  resample_buffers g = Returned (set_resample g (resampleState g) (request g)).
Proof.
  intros (Hcc & _ & _ & Hob & Hom) H. unfold INT_MAX in Hom.
  unfold resample_buffers. cbv zeta.
  cbn [set_resample inputData outputData outputBufsize].
  rewrite (ulong_small (outputBufsize g)) by nia.
  destruct (Z.eqb_spec (frames (inputData g)) 0); [reflexivity|].
  destruct (Z.eqb_spec (frames (outputData g)) (outputBufsize g));
    [reflexivity|]. tauto.
Qed.

(** A successful call of the converter, in a well-formed state. *)
Lemma resample_buffers_success (g : globals) :
  config_ok g -> input_ok g -> output_ok g ->
  let cc := channelCount g in
  let fi := frames (inputData g) in
  let fo := frames (outputData g) in
  let r := src_process (resampleState g) cc (request g) (data (inputData g)) in
  fi <> 0 -> fo <> outputBufsize g -> src_err r = 0 ->
  0 <= src_used r <= fi
  /\ 0 <= src_gen r <= outputBufsize g - fo
  /\ exists g',
      resample_buffers g = Returned g'
      /\ frames (outputData g') = fo + src_gen r
      /\ data (outputData g')
         = take (Z.to_nat (fo * cc)) (data (outputData g))
           ++ src_out r
           ++ drop (Z.to_nat ((fo + src_gen r) * cc)) (data (outputData g))
      /\ frames (inputData g') = fi - src_used r
      /\ data (inputData g')
         = take (Z.to_nat ((fi - src_used r) * cc))
                (drop (Z.to_nat (src_used r * cc)) (data (inputData g)))
           ++ drop (Z.to_nat ((fi - src_used r) * cc)) (data (inputData g))
      /\ resampleState g' = src_next r.
Proof.
  intros (Hcc & Hib & Him & Hob & Hom) (Hfi & Hli) (Hfo & Hlo) cc fi fo r
    Hne Hnf Herr.
  unfold INT_MAX in *.
  fold cc in Hcc, Him, Hom, Hli, Hlo. fold fi in Hfi, Hne.
  fold fo in Hfo, Hnf.
  assert (inputBufsize g <= 2 ^ 31 - 1) as Hib' by nia.
  assert (outputBufsize g <= 2 ^ 31 - 1) as Hob' by nia.
  assert (input_frames (request g) = fi) as Hin.
  { cbn. apply to_long_small. fold fi. nia. }
  assert (output_frames (request g) = outputBufsize g - fo) as Hout.
  { cbn. fold fo. rewrite ulong_small by lia. apply to_long_small. nia. }
  pose proof (src_process_used (resampleState g) cc (request g)
                (data (inputData g)) Herr) as Hu.
  pose proof (src_process_gen (resampleState g) cc (request g)
                (data (inputData g)) Herr) as Hg.
  pose proof (src_process_out (resampleState g) cc (request g)
                (data (inputData g)) Herr) as Ho.
  fold r in Hu, Hg, Ho. rewrite Hin in Hu. rewrite Hout in Hg.
  specialize (Hu ltac:(lia)). specialize (Hg ltac:(lia)).
  split; [exact Hu|]. split; [exact Hg|].
  eexists. split.
  { unfold resample_buffers. cbv zeta.
    cbn [set_resample inputData outputData outputBufsize channelCount
         resampleState].
    rewrite (ulong_small (outputBufsize g)) by lia.
    fold fi fo cc r.
    destruct (Z.eqb_spec fi 0) as [|_]; [contradiction|].
    destruct (Z.eqb_spec fo (outputBufsize g)) as [|_]; [contradiction|].
    rewrite Herr. cbn [Z.eqb negb]. reflexivity. }
  cbn [set_inputData set_outputData set_resample inputData outputData
       frames data resampleState].
  fold fi fo cc r.
  assert (0 <= fo * cc <= outputBufsize g * cc) as Hfoc by nia.
  assert (0 <= src_gen r * cc) as Hgc by nia.
  assert ((fo + src_gen r) * cc <= outputBufsize g * cc) as Hsum by nia.
  assert (0 <= src_used r * cc <= fi * cc) as Huc by nia.
  assert (fi * cc <= inputBufsize g * cc) as Hfic by nia.
  rewrite (ulong_small (fo * cc)) by lia.
  rewrite (ulong_small (fo + src_gen r)) by lia.
  rewrite (ulong_small (fi - src_used r)) by lia.
  rewrite (ulong_small ((fi - src_used r) * cc)) by nia.
  rewrite (to_long_small (src_used r * cc)) by lia.
  split; [reflexivity|]. split; [|split; [reflexivity|split; [|reflexivity]]].
  - rewrite blit_fits by (rewrite Ho; nia).
    rewrite Ho. do 3 f_equal. nia.
  - apply memcpy_front. nia.
Qed.

(** The callback keeps the output buffer within its capacity: the
    converter is offered the room that is left and no more. *)
Lemma resample_buffers_output_ok (g g' : globals) :
  config_ok g -> output_ok g -> 0 <= frames (inputData g) < 2 ^ 63 ->
  resample_buffers g = Returned g' ->
  output_ok g' /\ frames (outputData g) <= frames (outputData g').
Proof.
  intros (Hcc & _ & _ & Hob & Hom) (Hfo & Hlo) Hfi.
  unfold INT_MAX in Hom.
  assert (outputBufsize g <= 2 ^ 31 - 1) as Hob' by nia.
  unfold resample_buffers. cbv zeta.
  cbn [set_resample inputData outputData outputBufsize channelCount
       resampleState].
  destruct (_ =? 0).
  { intros [= <-]. split; [split; assumption | cbn; lia]. }
  destruct (_ =? _).
  { intros [= <-]. split; [split; assumption | cbn; lia]. }
  set (r := src_process _ _ _ _).
  destruct (Z.eqb_spec (src_err r) 0) as [Herr|]; [|discriminate].
  cbn [negb]. intros [= <-].
  pose proof (src_process_gen (resampleState g) (channelCount g) (request g)
                (data (inputData g)) Herr) as Hg.
  fold r in Hg.
  assert (output_frames (request g)
          = outputBufsize g - frames (outputData g)) as Hout.
  { cbn. rewrite ulong_small by lia. apply to_long_small. lia. }
  rewrite Hout in Hg. specialize (Hg ltac:(lia)).
  unfold output_ok, buffer_ok. cbn.
  rewrite length_blit, ulong_small by lia.
  split; [split; [lia | exact Hlo] | lia].
Qed.

Lemma output_callback_output_ok (g g' : globals) (output dest : list Q)
    (frameCount code : Z) :
  config_ok g -> output_ok g -> 0 <= frames (inputData g) < 2 ^ 63 ->
  0 <= frameCount -> frameCount * channelCount g < 2 ^ 64 ->
  Z.of_nat (length output) = frameCount * channelCount g ->
  output_callback g output frameCount = Returned (dest, g', code) ->
  output_ok g'
  /\ frames (outputData g) - Z.min frameCount (frames (outputData g))
     <= frames (outputData g').
Proof.
  intros Hc Ho Hfi Hfc Hfcc Hout.
  destruct (drain_spec g output frameCount Hc Ho Hfc Hfcc Hout)
    as (_ & Hd2 & _).
  destruct (drain_frame g output frameCount) as (Hs & _ & Hin & _ & _).
  assert (output_ok (snd (drain g output frameCount))) as Ho1.
  { destruct Ho as (Hf & Hlen). destruct Hs as (_ & _ & _ & _ & Hcc & _ & _ & Hob).
    unfold output_ok, buffer_ok. rewrite Hd2, Hcc, Hob.
    split; [lia|]. unfold drain. cbn. rewrite length_memcpy. exact Hlen. }
  assert (config_ok (snd (drain g output frameCount))) as Hc1.
  { unfold config_ok in *. destruct Hs as (_ & _ & _ & _ & -> & _ & -> & ->).
    exact Hc. }
  unfold output_callback.
  destruct (drain g output frameCount) as [d g1]. cbn [fst snd] in *.
  destruct (enableResample g1 =? 0).
  - intros [= _ <- _]. destruct (_ =? 0).
    + split; [exact Ho1 | lia].
    + split; [exact Ho1 | cbn; lia].
  - destruct (resample_buffers g1) as [g2|] eqn:E; [|discriminate].
    intros [= _ <- _].
    assert (output_ok g2 /\ frames (outputData g1) <= frames (outputData g2))
      as (Ho2 & Hmono).
    { apply (resample_buffers_output_ok g1 g2 Hc1 Ho1); [|exact E].
      rewrite Hin. exact Hfi. }
    destruct (_ =? 0).
    + split; [exact Ho2 | lia].
    + split; [exact Ho2 | cbn; lia].
Qed.

(** The converter's error ends the process. *)
Lemma resample_buffers_error (g : globals) :
  config_ok g ->
  let r := src_process (resampleState g) (channelCount g) (request g)
                       (data (inputData g)) in
  frames (inputData g) <> 0 -> frames (outputData g) <> outputBufsize g ->
  src_err r <> 0 ->
  resample_buffers g = Exited (src_err r).
Proof.
  intros (Hcc & _ & _ & Hob & Hom) r Hne Hnf Herr. unfold INT_MAX in Hom.
  unfold resample_buffers. cbv zeta.
  cbn [set_resample inputData outputData outputBufsize channelCount
       resampleState].
  rewrite (ulong_small (outputBufsize g)) by nia.
  fold r.
  destruct (Z.eqb_spec (frames (inputData g)) 0) as [|_]; [contradiction|].
  destruct (Z.eqb_spec (frames (outputData g)) (outputBufsize g)) as [|_];
    [contradiction|].
  destruct (Z.eqb_spec (src_err r) 0) as [|_]; [contradiction|].
  reflexivity.
Qed.

(** The state between the hand-over and the converter is well formed. *)
Lemma drain_well_formed (g : globals) (output : list Q) (frameCount : Z) :
  config_ok g -> output_ok g ->
  0 <= frameCount -> frameCount * channelCount g < 2 ^ 64 ->
  Z.of_nat (length output) = frameCount * channelCount g ->
  let g1 := snd (drain g output frameCount) in
  config_ok g1 /\ output_ok g1 /\ (input_ok g -> input_ok g1).
Proof.
  intros Hc Ho Hfc Hfcc Hout g1.
  destruct (drain_spec g output frameCount Hc Ho Hfc Hfcc Hout)
    as (_ & Hd2 & _).
  destruct (drain_frame g output frameCount) as (Hs & _ & Hin & _ & _).
  fold g1 in Hd2, Hs, Hin.
  destruct Hs as (_ & _ & _ & _ & Hcc & _ & Hib & Hob).
  split; [|split].
  - unfold config_ok in *. rewrite Hcc, Hib, Hob. exact Hc.
  - destruct Ho as (Hf & Hlen).
    unfold output_ok, buffer_ok. rewrite Hd2, Hcc, Hob.
    split; [lia|]. unfold g1, drain. cbn. rewrite length_memcpy. exact Hlen.
  - unfold input_ok. rewrite Hin, Hcc, Hib. tauto.
Qed.

(** A call in which the converter runs: it reports no error, and the fill
    at return is what the hand-over left plus the frames generated. *)
Lemma output_callback_running (g g' : globals) (output dest : list Q)
    (frameCount code : Z) :
  config_ok g -> input_ok g -> output_ok g ->
  0 <= frameCount -> frameCount * channelCount g < 2 ^ 64 ->
  Z.of_nat (length output) = frameCount * channelCount g ->
  let g1 := snd (drain g output frameCount) in
  let r := src_process (resampleState g1) (channelCount g1) (request g1)
                       (data (inputData g1)) in
  enableResample g <> 0 -> frames (inputData g) <> 0 ->
  frames (outputData g1) <> outputBufsize g ->
  output_callback g output frameCount = Returned (dest, g', code) ->
  src_err r = 0
  /\ 0 <= src_gen r <= outputBufsize g - frames (outputData g1)
  /\ frames (outputData g') = frames (outputData g1) + src_gen r.
Proof.
  intros Hc Hi Ho Hfc Hfcc Hout g1 r Hen Hne Hnf.
  destruct (drain_well_formed g output frameCount Hc Ho Hfc Hfcc Hout)
    as (Hc1 & Ho1 & Hi1). specialize (Hi1 Hi). fold g1 in Hc1, Ho1, Hi1.
  destruct (drain_frame g output frameCount) as (Hs & _ & Hin & _ & _).
  fold g1 in Hs, Hin.
  destruct Hs as (_ & _ & Her & _ & _ & _ & _ & Hob).
  unfold output_callback.
  destruct (drain g output frameCount) as [d1 g1'] eqn:Ed.
  cbn [fst snd] in *. subst g1. rewrite Her.
  destruct (Z.eqb_spec (enableResample g) 0) as [|_]; [contradiction|].
  rewrite <- Hin in Hne. rewrite <- Hob in Hnf.
  destruct (Z.eq_dec (src_err r) 0) as [Herr|Herr].
  - destruct (resample_buffers_success g1' Hc1 Hi1 Ho1 Hne Hnf Herr)
      as (_ & Hg & g2 & E & Hfo & _).
    fold r in Hg, Hfo. rewrite E. intros [= _ <- _].
    split; [exact Herr|]. rewrite <- Hob. split; [exact Hg|].
    destruct (_ =? 0); exact Hfo.
  - rewrite (resample_buffers_error g1' Hc1 Hne Hnf Herr). discriminate.
Qed.

(** C7 (amended).  In a well-formed state, a call with [frameCount] frames
    to deliver and [f] frames in the output buffer hands over the first
    [min(frameCount, f)] frames followed by zeros for the
    [frameCount - min(frameCount, f)] frames that are missing, leaves
    [f - min(frameCount, f)] frames, moved to the front, in the buffer, and
    returns [paContinue]: an empty or short buffer is no error.  That is the
    fill at return when the converter is disabled, has no input, or finds
    the buffer full.  Otherwise the converter, called after the hand-over,
    runs on the buffer so reduced, and the fill at return is
    [f - min(frameCount, f)] plus the frames it generated, which fit the
    room that was left.  The one way the call does not return is the
    converter's own failure. *)
Theorem C7_callback_underflow (g : globals) (output : list Q)
    (frameCount : Z) :
  config_ok g -> output_ok g ->
  0 <= frameCount -> frameCount * channelCount g < 2 ^ 64 ->
  Z.of_nat (length output) = frameCount * channelCount g ->
  let cc := channelCount g in
  let f := frames (outputData g) in
  let m := Z.min frameCount f in
  let dest := take (Z.to_nat (m * cc)) (data (outputData g))
              ++ replicate (Z.to_nat ((frameCount - m) * cc)) 0%Q in
  let g1 := snd (drain g output frameCount) in
  let r := src_process (resampleState g1) (channelCount g1) (request g1)
                       (data (inputData g1)) in
  frames (outputData g1) = f - m
  /\ take (Z.to_nat ((f - m) * cc)) (data (outputData g1))
     = take (Z.to_nat ((f - m) * cc))
            (drop (Z.to_nat (m * cc)) (data (outputData g)))
  /\ match output_callback g output frameCount with
     | Returned (d, g', code) =>
         d = dest /\ code = paContinue
         /\ (enableResample g = 0 \/ frames (inputData g) = 0
             \/ f - m = outputBufsize g ->
             frames (outputData g') = f - m)
         /\ (input_ok g -> enableResample g <> 0 ->
             frames (inputData g) <> 0 -> f - m <> outputBufsize g ->
             src_err r = 0
             /\ 0 <= src_gen r <= outputBufsize g - (f - m)
             /\ frames (outputData g') = f - m + src_gen r)
         /\ (0 <= frames (inputData g) < 2 ^ 63 ->
             f - m <= frames (outputData g') <= outputBufsize g)
     | Exited code =>
         enableResample g <> 0 /\ resample_buffers g1 = Exited code
     end
  /\ (enableResample g = 0 ->
      exists g',
        output_callback g output frameCount = Returned (dest, g', paContinue)
        /\ frames (outputData g') = f - m).
Proof.
  intros Hc Ho Hfc Hfcc Hout cc f m dest g1 r.
  destruct (drain_spec g output frameCount Hc Ho Hfc Hfcc Hout)
    as (Hd1 & Hd2 & Hd3).
  fold cc f m dest g1 in Hd1, Hd2, Hd3.
  destruct (drain_well_formed g output frameCount Hc Ho Hfc Hfcc Hout)
    as (Hc1 & _). fold g1 in Hc1.
  destruct (drain_frame g output frameCount) as (Hs & _ & Hin & _ & _).
  fold g1 in Hs, Hin.
  destruct Hs as (_ & _ & Her & Heu & _ & _ & _ & Hob1).
  split; [exact Hd2|]. split.
  { rewrite Hd3. apply take_app_length'.
    destruct Hc as (Hcc & _ & _ & Hob & Hom). destruct Ho as (Hf & Hlen).
    unfold INT_MAX in Hom. fold cc in Hcc, Hom, Hlen. fold f in Hf.
    rewrite length_take, length_drop. nia. }
  assert (forall g2,
            frames (outputData (if enableUpdate g2 =? 0 then g2
                                else update_ratio g2))
            = frames (outputData g2)) as Hupd.
  { intros g2. destruct (_ =? 0); reflexivity. }
  assert (forall d g' code,
            output_callback g output frameCount = Returned (d, g', code) ->
            enableResample g = 0 \/ frames (inputData g) = 0
            \/ f - m = outputBufsize g ->
            frames (outputData g') = f - m) as Hoff.
  { intros d g' code. clear r. unfold output_callback.
    destruct (drain g output frameCount) as [d1 g1'] eqn:Ed.
    cbn [fst snd] in *. subst g1. rewrite Her.
    destruct (Z.eqb_spec (enableResample g) 0) as [E|E].
    - intros [= _ <- _] _. rewrite Hupd. exact Hd2.
    - intros H [H0|H0]; [contradiction|]. revert H.
      rewrite (resample_buffers_noop g1' Hc1)
        by (rewrite Hin, Hd2, Hob1; exact H0).
      intros [= _ <- _]. destruct (_ =? 0); exact Hd2. }
  split.
  - destruct (output_callback g output frameCount) as [[[d g'] code]|] eqn:E.
    + destruct (output_callback_frame _ _ _ _ _ _ E)
        as (Hs & _ & _ & Hd & Hcode).
      split; [rewrite Hd; exact Hd1|]. split; [exact Hcode|].
      split; [apply (Hoff d g' code eq_refl)|].
      split.
      { intros Hi Hen Hne Hnf.
        pose proof (output_callback_running g g' output d frameCount code
                      Hc Hi Ho Hfc Hfcc Hout Hen Hne) as Hrun.
        cbv zeta in Hrun. fold g1 in Hrun. fold r in Hrun.
        rewrite Hd2 in Hrun. exact (Hrun Hnf E). }
      intros Hfi.
      destruct (output_callback_output_ok g g' output d frameCount code
                  Hc Ho Hfi Hfc Hfcc Hout E) as ((Hf' & _) & Hmono).
      destruct Hs as (_ & _ & _ & _ & _ & _ & _ & Hob).
      fold f m in Hmono. rewrite Hob in Hf'. lia.
    + revert E. unfold output_callback.
      destruct (drain g output frameCount) as [d1 g1'] eqn:Ed.
      cbn [fst snd] in *. subst g1. rewrite Her.
      destruct (Z.eqb_spec (enableResample g) 0) as [E|E]; [discriminate|].
      destruct (resample_buffers g1') as [g2|c]; [discriminate|].
      intros [= <-]. split; [exact E | reflexivity].
  - intros E.
    destruct (output_callback g output frameCount) as [[[d g'] code]|] eqn:E'.
    + destruct (output_callback_frame _ _ _ _ _ _ E')
        as (_ & _ & _ & Hd & Hcode).
      exists g'. rewrite Hd, Hd1, Hcode.
      split; [reflexivity|]. apply (Hoff d g' code eq_refl). left. exact E.
    + exfalso. revert E'. unfold output_callback.
      destruct (drain g output frameCount) as [d1 g1'] eqn:Ed.
      cbn [fst snd] in *. subst g1. rewrite Her, E. cbn [Z.eqb].
      discriminate.
Qed.

(** C8.  In a well-formed state [resample_buffers] returns with the two
    buffers, the converter state, the ratio, the limit and the settings as
    they were when the input buffer is empty or the output buffer is full
    (the request structure [resampleData] has been filled in by then).
    Otherwise, when the converter reports no error, the output count grows
    by the frames generated, which are stored behind the frames already
    there; the input count shrinks by the frames used and the frames that
    remain move to the front; the ratio, the limit and the settings are as
    they were.  When the converter reports an error the process exits. *)
Theorem C8_resample_buffers_effect (g : globals) :
  config_ok g -> input_ok g -> output_ok g ->
  let cc := channelCount g in
  let fi := frames (inputData g) in
  let fo := frames (outputData g) in
  let r := src_process (resampleState g) cc (request g) (data (inputData g)) in
  (fi = 0 \/ fo = outputBufsize g ->
   exists g',
     resample_buffers g = Returned g'
     /\ inputData g' = inputData g /\ outputData g' = outputData g
     /\ resampleState g' = resampleState g
     /\ resampleData g' = request g
     /\ resampleRatio g' = resampleRatio g /\ outputLimit g' = outputLimit g
     /\ same_settings g g')
  /\ (fi <> 0 -> fo <> outputBufsize g -> src_err r = 0 ->
      0 <= src_used r <= fi
      /\ 0 <= src_gen r <= outputBufsize g - fo
      /\ exists g',
          resample_buffers g = Returned g'
          /\ frames (outputData g') = fo + src_gen r
          /\ data (outputData g')
             = take (Z.to_nat (fo * cc)) (data (outputData g))
               ++ src_out r
               ++ drop (Z.to_nat ((fo + src_gen r) * cc))
                       (data (outputData g))
          /\ frames (inputData g') = fi - src_used r
          /\ data (inputData g')
             = take (Z.to_nat ((fi - src_used r) * cc))
                    (drop (Z.to_nat (src_used r * cc)) (data (inputData g)))
               ++ drop (Z.to_nat ((fi - src_used r) * cc))
                       (data (inputData g))
          /\ resampleRatio g' = resampleRatio g
          /\ outputLimit g' = outputLimit g
          /\ same_settings g g')
  /\ (fi <> 0 -> fo <> outputBufsize g -> src_err r <> 0 ->
      resample_buffers g = Exited (src_err r)).
Proof.
  intros Hc Hi Ho cc fi fo r. split; [|split].
  - intros H. eexists. split; [apply (resample_buffers_noop g Hc H)|].
    unfold same_settings. cbn. tauto.
  - intros Hne Hnf Herr.
    destruct (resample_buffers_success g Hc Hi Ho Hne Hnf Herr)
      as (Hu & Hg & g' & E & H1 & H2 & H3 & H4 & _).
    split; [exact Hu|]. split; [exact Hg|].
    exists g'. destruct (resample_buffers_frame g g' E) as (Hs & Hr & Hl).
    tauto.
  - intros Hne Hnf Herr.
    destruct Hc as (Hcc & _ & _ & Hob & Hom). unfold INT_MAX in Hom.
    unfold resample_buffers. cbv zeta.
    cbn [set_resample inputData outputData outputBufsize channelCount
         resampleState].
    rewrite (ulong_small (outputBufsize g)) by nia.
    fold fi fo cc r.
    destruct (Z.eqb_spec fi 0) as [|_]; [contradiction|].
    destruct (Z.eqb_spec fo (outputBufsize g)) as [|_]; [contradiction|].
    destruct (Z.eqb_spec (src_err r) 0) as [|_]; [contradiction|].
    reflexivity.
Qed.

End Consumer.


(** C7 on the default settings with an empty output buffer and a request for
    441 frames of 8 channels: the destination, whatever it held, comes back
    as 3528 zeros with [paContinue]. *)
Lemma C7_callback_underflow_witness :
  exists g',
    output_callback default_globals (replicate 3528 1%Q) 441
    = Returned (replicate 3528 0%Q, g', paContinue)
    /\ frames (outputData g') = 0.
Proof.
  assert (config_ok default_globals) as H1
    by (vm_compute; intuition discriminate).
  assert (output_ok default_globals) as H2
    by (vm_compute; intuition (discriminate || reflexivity)).
  assert (0 <= 441) as H3 by (vm_compute; discriminate).
  assert (441 * channelCount default_globals < 2 ^ 64) as H4
    by (vm_compute; reflexivity).
  assert (Z.of_nat (length (replicate 3528 1%Q))
          = 441 * channelCount default_globals) as H5
    by (vm_compute; reflexivity).
  destruct (proj2 (proj2 (proj2
              (C7_callback_underflow default_globals (replicate 3528 1%Q) 441
                 H1 H2 H3 H4 H5))) eq_refl) as (g' & E & F).
  exists g'. split; [exact E | exact F].
Defined.

(** C7, the claim as it stands: on the small settings once the stream has
    started, the output buffer is empty and two frames wait in the input
    buffer.  A call for three frames hands over nothing, and the claim has
    the fill at [0 - min(3, 0) = 0] after it; the converter, called after
    the hand-over, has moved the two frames across, and the fill at return
    is 2. *)
Lemma C7_fill_at_return_counterexample :
  match output_callback (primed small_globals 1253) (replicate 6 1%Q) 3 with
  | Returned (_, g', _) =>
      let f := frames (outputData (primed small_globals 1253)) in
      frames (outputData g') = 2
      /\ frames (outputData g') <> f - Z.min 3 f
  | Exited _ => False
  end.
Proof. vm_compute. split; [reflexivity | discriminate]. Qed.

(** C8 on the small settings once the stream has started: two frames wait
    in the input buffer, the output buffer is empty, and the converter
    moves the two frames across. *)
Lemma C8_resample_buffers_effect_witness :
  exists g',
    resample_buffers (primed small_globals 1253) = Returned g'
    /\ frames (outputData g') = 2
    /\ frames (inputData g') = 0
    /\ outputLimit g' = outputLimit (primed small_globals 1253).
Proof.
  assert (config_ok (primed small_globals 1253)) as H1
    by (vm_compute; intuition discriminate).
  assert (input_ok (primed small_globals 1253)) as H2
    by (vm_compute; intuition (discriminate || reflexivity)).
  assert (output_ok (primed small_globals 1253)) as H3
    by (vm_compute; intuition (discriminate || reflexivity)).
  destruct (proj1 (proj2
              (C8_resample_buffers_effect (primed small_globals 1253)
                 H1 H2 H3)))
    as (_ & _ & g' & E & Fo & _ & Fi & _ & _ & Hl & _).
  - vm_compute. discriminate.
  - vm_compute. discriminate.
  - vm_compute. reflexivity.
  - exists g'. split; [exact E|].
    split; [rewrite Fo; vm_compute; reflexivity|].
    split; [rewrite Fi; vm_compute; reflexivity | exact Hl].
Defined.

(** One frame of two channels in the output buffer and a request for three:
    the frame is handed over, followed by two frames of zeros, and the
    buffer is left empty. *)
Example callback_short_buffer :
  match output_callback
          (set_outputData small_globals
             {| data := [0.5; -0.5]%Q ++ replicate 318 0%Q; frames := 1 |})
          (replicate 6 1%Q) 3 with
  | Returned (dest, g', code) =>
      dest = [0.5; -0.5; 0; 0; 0; 0]%Q
      /\ frames (outputData g') = 0
      /\ code = paContinue
  | Exited _ => False
  end.
Proof. vm_compute. repeat split. Qed.

(** The same underflow once the stream runs, on the small settings: the
    output buffer is empty and two frames wait in the input buffer.  The
    three frames asked for come back as zeros with [paContinue], and the
    converter, called after the hand-over, then moves the two frames to the
    output buffer. *)
Example callback_underflow_running :
  match output_callback (primed small_globals 1253) (replicate 6 1%Q) 3 with
  | Returned (dest, g', code) =>
      frames (outputData (primed small_globals 1253)) = 0
      /\ enableResample (primed small_globals 1253) = 1
      /\ dest = replicate 6 0%Q
      /\ code = paContinue
      /\ frames (outputData g') = 2
      /\ frames (inputData g') = 0
  | Exited _ => False
  end.
Proof. vm_compute. repeat split. Qed.

(** * Further properties *)

(** ** The wire format and the decoder *)

Section Wire.

Lemma lor_shiftl_add (a b k : Z) :
  0 <= k -> 0 <= a < 2 ^ k -> Z.lor a (Z.shiftl b k) = a + b * 2 ^ k.
Proof.
  intros Hk Ha. rewrite Z.shiftl_mul_pow2 by exact Hk.
  symmetry. apply Z.add_nocarry_lor. apply Z.bits_inj'. intros n Hn.
  rewrite Z.land_spec, Z.bits_0.
  destruct (Z.lt_ge_cases n k) as [Hlt|Hge].
  - rewrite Z.mul_pow2_bits_low by exact Hlt. apply andb_false_r.
  - rewrite <- (Z.mod_small a (2 ^ k)) by exact Ha.
    rewrite Z.mod_pow2_bits_high by lia. reflexivity.
Qed.

(** The same for any [y] whose low [k] bits are clear. *)
Lemma lor_add_low (x y k : Z) :
  0 <= k -> 0 <= x < 2 ^ k -> y mod 2 ^ k = 0 -> Z.lor x y = x + y.
Proof.
  intros Hk Hx Hy.
  assert (y = (y / 2 ^ k) * 2 ^ k) as E.
  { pose proof (Z.div_mod y (2 ^ k)). lia. }
  rewrite E at 1. rewrite <- Z.shiftl_mul_pow2 by exact Hk.
  rewrite lor_shiftl_add by assumption. lia.
Qed.

Lemma byte_at_byte_range (b : list byte) (i : nat) : 0 <= byte_at b i < 256.
Proof. pose proof (byte_at_range b i). lia. Qed.

(** The packet counter is the little-endian value of bytes 39 to 42. *)
Lemma counter_value (b : list byte) :
  counter b
  = byte_at b 39 + 256 * byte_at b 40 + 65536 * byte_at b 41
    + 16777216 * byte_at b 42.
Proof.
  unfold counter.
  pose proof (byte_at_byte_range b 39). pose proof (byte_at_byte_range b 40).
  pose proof (byte_at_byte_range b 41). pose proof (byte_at_byte_range b 42).
  rewrite !Z.shiftl_mul_pow2 by lia.
  rewrite !ulong_small by lia.
  rewrite <- !Z.shiftl_mul_pow2 by lia.
  rewrite (lor_shiftl_add (byte_at b 39)) by lia.
  rewrite (lor_shiftl_add (byte_at b 39 + _)) by lia.
  rewrite (lor_shiftl_add (byte_at b 39 + _ + _)) by lia.
  lia.
Qed.

(** The 16-bit counts are little-endian and two's complement. *)
Lemma short_val_value (b : list byte) (off : nat) :
  let u := byte_at b off + 256 * byte_at b (off + 1) in
  short_val b off = if u <? 32768 then u else u - 65536.
Proof.
  cbv zeta. unfold short_val, to_short.
  pose proof (byte_at_byte_range b off).
  pose proof (byte_at_byte_range b (off + 1)).
  rewrite lor_shiftl_add by lia.
  change (2 ^ 8) with 256. change (2 ^ 15) with 32768.
  change (2 ^ 16) with 65536.
  destruct (Z.ltb_spec (byte_at b off + 256 * byte_at b (off + 1)) 32768).
  all: Z.div_mod_to_equations; lia.
Qed.

Lemma land_bit23 (x : Z) :
  0 <= x < 2 ^ 24 -> (Z.land x 0x00800000 =? 0) = (x <? 2 ^ 23).
Proof.
  intros Hx. change 0x00800000 with (2 ^ 23).
  destruct (Z.ltb_spec x (2 ^ 23)) as [Hlt|Hge].
  - apply Z.eqb_eq. apply Z.bits_inj'. intros n Hn.
    rewrite Z.land_spec, Z.bits_0, Z.pow2_bits_eqb by lia.
    destruct (Z.eqb_spec 23 n) as [<-|]; [|apply andb_false_r].
    rewrite <- (Z.mod_small x (2 ^ 23)) by lia.
    rewrite Z.mod_pow2_bits_high by lia. reflexivity.
  - apply Z.eqb_neq. intros E.
    assert (Z.testbit (Z.land x (2 ^ 23)) 23 = true) as Hb.
    { rewrite Z.land_spec, Z.pow2_bits_true by lia.
      rewrite andb_true_r. apply Z.testbit_true; [lia|].
      replace (x / 2 ^ 23) with 1; [reflexivity|].
      apply Z.div_unique with (x - 2 ^ 23); lia. }
    rewrite E, Z.bits_0 in Hb. discriminate.
Qed.

(** The EEG count of a channel: the big-endian value [u] of its three bytes
    when bit 23 is clear, and [u + 0xFF000000] when it is set. *)
Lemma eeg_val_value (b : list byte) (ch : nat) :
  let u := 65536 * byte_at b (3 + ch * 3) + 256 * byte_at b (4 + ch * 3)
           + byte_at b (5 + ch * 3) in
  eeg_val b ch = if u <? 2 ^ 23 then u else u + 0xFF000000.
Proof.
  cbv zeta. unfold eeg_val.
  pose proof (byte_at_byte_range b (3 + ch * 3)).
  pose proof (byte_at_byte_range b (4 + ch * 3)).
  pose proof (byte_at_byte_range b (5 + ch * 3)).
  rewrite !Z.shiftl_mul_pow2 by lia.
  rewrite !ulong_small by lia.
  rewrite <- !Z.shiftl_mul_pow2 by lia.
  rewrite !Z.shiftl_mul_pow2 by lia.
  change (2 ^ 16) with 65536. change (2 ^ 8) with 256.
  rewrite (Z.lor_comm (_ * 65536)).
  rewrite (lor_add_low (_ * 256) (_ * 65536) 16);
    [| lia | change (2 ^ 16) with 65536; lia
     | change (2 ^ 16) with 65536; apply Z.mod_mul; lia].
  rewrite (Z.lor_comm _ (byte_at b (5 + ch * 3))).
  rewrite (lor_add_low (byte_at b (5 + ch * 3)) _ 8);
    [| lia | change (2 ^ 8) with 256; lia|].
  2: { change (2 ^ 8) with 256.
       replace (byte_at b (4 + ch * 3) * 256 + byte_at b (3 + ch * 3) * 65536)
         with ((byte_at b (4 + ch * 3) + byte_at b (3 + ch * 3) * 256) * 256)
         by lia.
       apply Z.mod_mul. lia. }
  match goal with |- context [Z.land ?v _] => set (u := v) end.
  assert (0 <= u < 2 ^ 24) as Hu by (subst u; lia).
  rewrite land_bit23 by exact Hu.
  replace (65536 * byte_at b (3 + ch * 3) + 256 * byte_at b (4 + ch * 3)
           + byte_at b (5 + ch * 3)) with u by (subst u; lia).
  destruct (u <? 2 ^ 23); [reflexivity|].
  change (Z.lor u 0xFF000000) with (Z.lor u (Z.shiftl 255 24)).
  rewrite lor_shiftl_add by lia. reflexivity.
Qed.

Lemma byte_of_Z_value (z : Z) :
  Z.of_N (Byte.to_N (byte_of_Z z)) = z mod 256.
Proof.
  unfold byte_of_Z.
  assert (0 <= z mod 256 < 256) as Hz by (apply Z.mod_pos_bound; lia).
  destruct (Byte.of_N (Z.to_N (z mod 256))) as [b|] eqn:E.
  - apply Byte.to_of_N in E. rewrite E. lia.
  - apply Byte.of_N_None_iff in E. lia.
Qed.

Lemma land_low_nibble (z : Z) : Z.land (z mod 256) 0x0F = z mod 16.
Proof.
  change 0x0F with (Z.ones 4). rewrite Z.land_ones by lia.
  change (2 ^ 4) with 16. Z.div_mod_to_equations. lia.
Qed.

Lemma eeg_val_be24 (b : list byte) (ch : nat) (n : Z) :
  byte_at b (3 + ch * 3) = (n / 65536) mod 256 ->
  byte_at b (4 + ch * 3) = (n / 256) mod 256 ->
  byte_at b (5 + ch * 3) = n mod 256 ->
  - 2 ^ 23 <= n < 2 ^ 23 ->
  eeg_val b ch = eeg_count n.
Proof.
  intros H0 H1 H2 Hn. rewrite eeg_val_value. cbv zeta.
  rewrite H0, H1, H2. unfold eeg_count.
  change (2 ^ 23) with 8388608 in *. change (2 ^ 32) with 4294967296.
  destruct (Z.ltb_spec (65536 * ((n / 65536) mod 256)
                        + 256 * ((n / 256) mod 256) + n mod 256) 8388608);
    destruct (Z.leb_spec 0 n); Z.div_mod_to_equations; lia.
Qed.

Lemma short_val_le16 (b : list byte) (off : nat) (v : Z) :
  byte_at b off = v mod 256 ->
  byte_at b (off + 1) = (v / 256) mod 256 ->
  - 2 ^ 15 <= v < 2 ^ 15 ->
  short_val b off = v.
Proof.
  intros H0 H1 Hv. rewrite short_val_value. cbv zeta. rewrite H0, H1.
  change (2 ^ 15) with 32768 in *.
  destruct (Z.ltb_spec (v mod 256 + 256 * ((v / 256) mod 256)) 32768);
    Z.div_mod_to_equations; lia.
Qed.

Lemma counter_le32 (b : list byte) (n : Z) :
  byte_at b 39 = n mod 256 ->
  byte_at b 40 = (n / 256) mod 256 ->
  byte_at b 41 = (n / 65536) mod 256 ->
  byte_at b 42 = (n / 16777216) mod 256 ->
  0 <= n < 2 ^ 32 ->
  counter b = n.
Proof.
  intros H0 H1 H2 H3 Hn. rewrite counter_value, H0, H1, H2, H3.
  change (2 ^ 32) with 4294967296 in *.
  Z.div_mod_to_equations. lia.
Qed.

(** X1.  Round trip through the wire format.  A frame that carries eight
    EEG counts of 24 bits, three accelerometer and three gyroscope counts of
    16 bits, a status byte and a 32-bit packet counter is accepted, and
    decodes to the accelerometer counts over 4096, the gyroscope counts over
    32.8, the low nibble of the status as a percentage of 15, and the
    counter.  An EEG count that is not negative comes back scaled by
    4500000/50331642; a negative one comes back 2^32 too large. *)
Theorem decode_encode_frame (status : Z) (eegs accs gyrs : list Z) (cnt : Z) :
  length eegs = 8%nat -> length accs = 3%nat -> length gyrs = 3%nat ->
  Forall (fun n => - 2 ^ 23 <= n < 2 ^ 23) eegs ->
  Forall (fun v => - 2 ^ 15 <= v < 2 ^ 15) accs ->
  Forall (fun v => - 2 ^ 15 <= v < 2 ^ 15) gyrs ->
  0 <= cnt < 2 ^ 32 ->
  unicorn_pull_sample
    {| result := 45; buf := encode_frame status eegs accs gyrs cnt |}
  = Some (map (fun n => (inject_Z (eeg_count n) * 4500000 / 50331642)%Q) eegs
          ++ map (fun v => (inject_Z v / 4096)%Q) accs
          ++ map (fun v => (inject_Z v / 32.8)%Q) gyrs
          ++ [(inject_Z (status mod 16) * 100 / 15)%Q; inject_Z cnt]).
Proof.
  intros He Ha Hg Fe Fa Fg Hc.
  destruct eegs as [|e0 [|e1 [|e2 [|e3 [|e4 [|e5 [|e6 [|e7 [|]]]]]]]]];
    try discriminate He.
  destruct accs as [|a0 [|a1 [|a2 [|]]]]; try discriminate Ha.
  destruct gyrs as [|g0 [|g1 [|g2 [|]]]]; try discriminate Hg.
  repeat match goal with
         | H : Forall _ (_ :: _) |- _ => apply Forall_cons in H; destruct H
         | H : Forall _ [] |- _ => clear H
         end.
  unfold unicorn_pull_sample.
  cbn [result buf encode_frame map concat app be24 le16 le32].
  replace (byte_at _ 0 =? 192) with true by reflexivity.
  replace (byte_at _ 1 =? 0) with true by reflexivity.
  cbn [negb orb seq map app].
  unfold eeg, accel, gyro, battery.
  pose proof byte_of_Z_value as Hbyte.
  rewrite (eeg_val_be24 _ 0 e0), (eeg_val_be24 _ 1 e1), (eeg_val_be24 _ 2 e2),
    (eeg_val_be24 _ 3 e3), (eeg_val_be24 _ 4 e4), (eeg_val_be24 _ 5 e5),
    (eeg_val_be24 _ 6 e6), (eeg_val_be24 _ 7 e7);
    try assumption; try (unfold byte_at; cbn [nth Nat.add Nat.mul]; apply Hbyte).
  rewrite (short_val_le16 _ _ a0), (short_val_le16 _ _ a1),
    (short_val_le16 _ _ a2), (short_val_le16 _ _ g0),
    (short_val_le16 _ _ g1), (short_val_le16 _ _ g2);
    try assumption; try (unfold byte_at; cbn [nth Nat.add Nat.mul]; apply Hbyte).
  rewrite (counter_le32 _ cnt);
    try assumption; try (unfold byte_at; cbn [nth Nat.add Nat.mul]; apply Hbyte).
  unfold byte_at at 1. cbn [nth]. rewrite Hbyte, land_low_nibble.
  reflexivity.
Qed.

End Wire.

(** X1 on a frame with counts of either sign. *)
Lemma decode_encode_frame_witness :
  unicorn_pull_sample
    {| result := 45;
       buf := encode_frame 15 [1; -1; 0; 0; 0; 0; 0; 8388607]
                [4096; -4096; 0] [328; 0; -328] 1000 |}
  = Some (map (fun n => (inject_Z (eeg_count n) * 4500000 / 50331642)%Q)
              [1; -1; 0; 0; 0; 0; 0; 8388607]
          ++ map (fun v => (inject_Z v / 4096)%Q) [4096; -4096; 0]
          ++ map (fun v => (inject_Z v / 32.8)%Q) [328; 0; -328]
          ++ [(inject_Z (15 mod 16) * 100 / 15)%Q; inject_Z 1000]).
Proof.
  apply decode_encode_frame; try reflexivity.
  - repeat (constructor;
            [vm_compute; intuition (discriminate || reflexivity)|]).
    constructor.
  - repeat (constructor;
            [vm_compute; intuition (discriminate || reflexivity)|]).
    constructor.
  - repeat (constructor;
            [vm_compute; intuition (discriminate || reflexivity)|]).
    constructor.
  - vm_compute. intuition (discriminate || reflexivity).
Defined.

(** ** Ranges of the decoded values *)

Section Ranges.

Lemma inject_Z_range (lo v hi : Z) :
  lo <= v <= hi -> (inject_Z lo <= inject_Z v <= inject_Z hi)%Q.
Proof. intros [H1 H2]. split; rewrite <- Zle_Qle; assumption. Qed.

(** X2.  Whatever the bytes of a frame, the decoded values stay in the
    ranges of their fields: an EEG count between 0 and 2^32 - 1, hence an
    EEG value that is never negative and lies either between 0 and 750000
    microvolt or between 383250045 and 384000046; an acceleration from -8
    to under 8 g; an angular rate within 1000 degrees per second either
    way; a battery level from 0 to 100 percent, reached exactly when the
    low nibble of byte 2 is 15; a packet counter below 2^32. *)
Theorem decoded_ranges (b : list byte) (ch : nat) :
  0 <= eeg_val b ch < 2 ^ 32
  /\ ((0 <= eeg b ch <= 750000)%Q
      \/ (383250045 < eeg b ch < 384000046)%Q)
  /\ (- 8 <= accel b ch < 8)%Q
  /\ (- 1000 < gyro b ch < 1000)%Q
  /\ (0 <= battery b <= 100)%Q
  /\ (battery b == 100 <-> byte_at b 2 mod 16 = 15)
  /\ 0 <= counter b < 2 ^ 32.
Proof.
  pose proof (byte_at_byte_range b (3 + ch * 3)).
  pose proof (byte_at_byte_range b (4 + ch * 3)).
  pose proof (byte_at_byte_range b (5 + ch * 3)).
  assert (0 <= eeg_val b ch <= 8388607
          \/ 4286578688 <= eeg_val b ch <= 4294967295) as He.
  { rewrite eeg_val_value. cbv zeta. change (2 ^ 23) with 8388608.
    destruct (_ <? _) eqn:E; [apply Z.ltb_lt in E | apply Z.ltb_ge in E]; lia. }
  assert ((0 <= inject_Z (eeg_val b ch) <= 8388607)%Q
          \/ (4286578688 <= inject_Z (eeg_val b ch) <= 4294967295)%Q) as HeQ.
  { destruct He as [He|He]; [left|right];
      apply inject_Z_range in He; exact He. }
  assert (forall off, - 32768 <= short_val b off <= 32767) as Hs.
  { intros off. rewrite short_val_value. cbv zeta.
    pose proof (byte_at_byte_range b off).
    pose proof (byte_at_byte_range b (off + 1)).
    destruct (_ <? _) eqn:E; [apply Z.ltb_lt in E | apply Z.ltb_ge in E]; lia. }
  pose proof (inject_Z_range _ _ _ (Hs (27 + ch * 2)%nat)) as Ha.
  pose proof (inject_Z_range _ _ _ (Hs (33 + ch * 2)%nat)) as Hg.
  assert (Z.land (byte_at b 2) 0x0F = byte_at b 2 mod 16) as Hnib.
  { change 0x0F with (Z.ones 4). rewrite Z.land_ones by lia. reflexivity. }
  assert (0 <= Z.land (byte_at b 2) 0x0F <= 15) as Hn.
  { rewrite Hnib. Z.div_mod_to_equations. lia. }
  apply inject_Z_range in Hn as HnQ.
  split; [change (2 ^ 32) with 4294967296; lia|].
  unfold eeg, accel, gyro, battery, Qdiv.
  change (/ 50331642)%Q with (1 # 50331642)%Q.
  change (/ 4096)%Q with (1 # 4096)%Q.
  change (/ 32.8)%Q with (10 # 328)%Q.
  change (/ 15)%Q with (1 # 15)%Q.
  change (inject_Z 0) with 0%Q in *.
  change (inject_Z (-32768)) with (-32768)%Q in *.
  change (inject_Z 32767) with 32767%Q in *.
  change (inject_Z 15) with 15%Q in *.
  split; [destruct HeQ; [left|right]; lra|].
  split; [lra|]. split; [lra|]. split; [lra|].
  split.
  - rewrite <- Hnib. split.
    + intros E.
      assert (inject_Z (Z.land (byte_at b 2) 15) == inject_Z 15)%Q as E'
        by (change (inject_Z 15) with 15%Q; lra).
      apply (proj1 (inject_Z_injective _ _)) in E'. exact E'.
    + intros ->. reflexivity.
  - rewrite counter_value.
    pose proof (byte_at_byte_range b 39). pose proof (byte_at_byte_range b 40).
    pose proof (byte_at_byte_range b 41). pose proof (byte_at_byte_range b 42).
    change (2 ^ 32) with 4294967296. lia.
Qed.

End Ranges.

(** ** Stage 4 of [main] before the stream starts *)

Section Startup.

Context {R : Resampler}.

Lemma quot2_range (a : Z) : 0 <= a -> 0 <= Z.quot a 2 <= a.
Proof.
  intros Ha. rewrite Z.quot_div_nonneg by lia.
  Z.div_mod_to_equations. lia.
Qed.

Lemma flush_spec (k : nat) (l : locals) (port : list read_t) :
  samplesReceived l = 1250 - Z.of_nat k -> (k <= 1250)%nat ->
  match flush l port with
  | Some (l', port') =>
      (k <= length port)%nat /\ forallb good (take k port) = true
      /\ port' = drop k port
      /\ samplesReceived l' = 1250 /\ eegfilt l' = eegfilt l
  | None => (length port < k)%nat \/ forallb good (take k port) = false
  end.
Proof.
  revert l port. induction k as [|k IH]; intros l port Hsr Hk.
  - assert (flush l port = Some (l, port)) as ->.
    { destruct port; cbn [flush]; change (5 * FSAMPLE) with 1250;
        destruct (Z.ltb_spec (samplesReceived l) 1250); try lia; reflexivity. }
    rewrite drop_0. cbn. repeat split; try lia.
  - destruct port as [|rd port]; cbn [flush]; change (5 * FSAMPLE) with 1250;
      destruct (Z.ltb_spec (samplesReceived l) 1250); try lia.
    + left. cbn. lia.
    + cbn [take forallb drop length]. unfold good at 1 3.
      destruct (unicorn_pull_sample rd) as [dat|]; [|right; reflexivity].
      cbn [andb].
      specialize (IH {| eegdata := dat; eegfilt := eegfilt l;
                        samplesReceived := ulong (samplesReceived l + 1) |}
                     port).
      cbn [samplesReceived eegfilt] in IH.
      rewrite ulong_small in IH by lia.
      specialize (IH ltac:(lia) ltac:(lia)).
      rewrite ulong_small by lia.
      destruct (flush _ port) as [[l' port']|].
      * destruct IH as (? & ? & ? & ? & ?). repeat split; try assumption; lia.
      * destruct IH as [?|?]; [left; lia | right; assumption].
Qed.

Lemma loop_body_good (g : globals) (l : locals) (rd : read_t) :
  good rd = false <-> loop_body g l rd = None.
Proof.
  unfold good, loop_body. destruct (unicorn_pull_sample rd); split;
    intros; congruence.
Qed.

Lemma fill_buffer_spec (k : nat) (g : globals) (l : locals)
    (port : list read_t) :
  0 <= inputBufsize g < 2 ^ 63 ->
  samplesReceived l = Z.quot (inputBufsize g) 2 - Z.of_nat k ->
  0 <= samplesReceived l ->
  0 <= frames (inputData g) ->
  frames (inputData g) + Z.of_nat k < 2 ^ 64 ->
  match fill_buffer g l port with
  | Some (g', l', port') =>
      (k <= length port)%nat /\ forallb good (take k port) = true
      /\ port' = drop k port
      /\ frames (inputData g') = frames (inputData g) + Z.of_nat k
      /\ length (data (inputData g')) = length (data (inputData g))
      /\ outputData g' = outputData g
      /\ same_settings g g'
      /\ resampleRatio g' = resampleRatio g
      /\ samplesReceived l' = Z.quot (inputBufsize g) 2
  | None => (length port < k)%nat \/ forallb good (take k port) = false
  end.
Proof.
  revert g l port. induction k as [|k IH]; intros g l port Hb Hsr Hsr0 Hf Hfk;
    pose proof (quot2_range (inputBufsize g) ltac:(lia)) as Hq2.
  - assert (ulong (Z.quot (inputBufsize g) 2) = Z.quot (inputBufsize g) 2)
      as Hq by (pose proof (quot2_range (inputBufsize g)); apply ulong_small; lia).
    assert (fill_buffer g l port = Some (g, l, port)) as ->.
    { destruct port; cbn [fill_buffer]; rewrite Hq;
        destruct (Z.ltb_spec (samplesReceived l) (Z.quot (inputBufsize g) 2));
        try lia; reflexivity. }
    rewrite drop_0. cbn.
    pose proof (same_settings_refl g). repeat split; try tauto; lia.
  - assert (ulong (Z.quot (inputBufsize g) 2) = Z.quot (inputBufsize g) 2)
      as Hq by (pose proof (quot2_range (inputBufsize g)); apply ulong_small; lia).
    destruct port as [|rd port]; cbn [fill_buffer]; rewrite Hq;
      destruct (Z.ltb_spec (samplesReceived l) (Z.quot (inputBufsize g) 2));
      try lia.
    + left. cbn. lia.
    + cbn [take forallb drop length].
      destruct (loop_body g l rd) as [[g1 l1]|] eqn:E.
      * assert (good rd = true) as ->.
        { destruct (good rd) eqn:Eg; [reflexivity|].
          apply (loop_body_good g l) in Eg. congruence. }
        cbn [andb].
        pose proof E as E'. unfold loop_body in E'.
        destruct (unicorn_pull_sample rd) as [dat|]; [|discriminate].
        injection E' as Eg El.
        assert (samplesReceived l1 = samplesReceived l + 1) as Hs1.
        { rewrite <- El. cbn. apply ulong_small. lia. }
        destruct (append_sample_frame
                    (lowpass (channelCount g) (eegfilt l) dat) g)
          as (Hs & Hr & Ho & Hfr & Hln & _).
        rewrite Eg in Hs, Hr, Ho, Hfr, Hln. cbv zeta in *.
        rewrite ulong_small in Hfr by lia.
        assert (inputBufsize g1 = inputBufsize g) as Hib
          by (destruct Hs as (_ & _ & _ & _ & _ & _ & Hib & _); exact Hib).
        specialize (IH g1 l1 port).
        rewrite Hib, Hfr, Hs1 in IH.
        specialize (IH ltac:(lia) ltac:(lia) ltac:(lia) ltac:(lia) ltac:(lia)).
        destruct (fill_buffer g1 l1 port) as [[[g2 l2] p2]|].
        -- destruct IH as (? & ? & ? & ? & ? & ? & ? & ? & ?).
           repeat split; try assumption; try lia; try congruence.
           all: eapply same_settings_trans; eassumption.
        -- destruct IH as [?|?]; [left; lia | right; assumption].
      * apply (loop_body_good g l) in E. rewrite E. right. reflexivity.
Qed.

Lemma forallb_take_add {A : Type} (f : A -> bool) (a b : nat) (l : list A) :
  forallb f (take (a + b) l)
  = forallb f (take a l) && forallb f (take b (drop a l)).
Proof. rewrite <- take_take_drop, forallb_app. reflexivity. Qed.

Lemma first_sample_spec (cc : Z) (l : locals) (port : list read_t) :
  match first_sample cc l port with
  | Some (l', port') =>
      (1 <= length port)%nat /\ forallb good (take 1 port) = true
      /\ port' = drop 1 port
      /\ samplesReceived l' = samplesReceived l
      /\ exists dat,
          head (map unicorn_pull_sample port) = Some (Some dat)
          /\ eegfilt l' = init_filter cc (eegfilt l) dat
          /\ eegdata l' = lowpass cc (eegfilt l') dat
  | None => (length port < 1)%nat \/ forallb good (take 1 port) = false
  end.
Proof.
  destruct port as [|rd port]; cbn [first_sample].
  - left. cbn. lia.
  - cbn [take forallb length drop map head]. rewrite drop_0. unfold good.
    destruct (unicorn_pull_sample rd) as [dat|]; [|right; reflexivity].
    cbn. repeat split; try lia. exists dat. repeat split.
Qed.

(** What [startup] does with the port and the state, branch by branch. *)
Lemma startup_shape (g : globals) (l : locals) (port : list read_t) :
  samplesReceived l = 0 ->
  0 <= inputBufsize g <= INT_MAX ->
  0 <= frames (inputData g) <= INT_MAX ->
  match startup g l port with
  | Some (g', l', port') =>
      (startup_frames g <= length port)%nat
      /\ forallb good (take (startup_frames g) port) = true
      /\ port' = drop (startup_frames g) port
      /\ frames (inputData g')
         = frames (inputData g) + Z.quot (inputBufsize g) 2
      /\ length (data (inputData g')) = length (data (inputData g))
      /\ outputData g' = outputData g
      /\ resampleRatio g' = (outputRate g / inputRate g)%Q
      /\ enableResample g' = 1 /\ enableUpdate g' = 1
      /\ channelCount g' = channelCount g
      /\ inputBufsize g' = inputBufsize g
      /\ outputBufsize g' = outputBufsize g
      /\ samplesReceived l' = Z.quot (inputBufsize g) 2
  | None =>
      (length port < startup_frames g)%nat
      \/ forallb good (take (startup_frames g) port) = false
  end.
Proof.
  intros Hsr Hb Hf. unfold INT_MAX in *.
  pose proof (quot2_range (inputBufsize g) ltac:(lia)) as Hq.
  set (n2 := Z.to_nat (Z.quot (inputBufsize g) 2)).
  assert (startup_frames g = (1250 + (1 + n2))%nat) as -> by reflexivity.
  assert (Z.of_nat n2 = Z.quot (inputBufsize g) 2) as Hn2 by (subst n2; lia).
  clearbody n2.
  rewrite !forallb_take_add, <- !drop_drop.
  unfold startup.
  pose proof (flush_spec 1250 l port ltac:(lia) ltac:(lia)) as H1.
  destruct (flush l port) as [[l1 p1]|].
  2: { destruct H1 as [H1|H1]; [left; lia | right; rewrite H1; reflexivity]. }
  destruct H1 as (Hl1 & Hg1 & -> & _ & _). rewrite Hg1. cbn [andb].
  set (l1' := {| eegdata := eegdata l1; eegfilt := eegfilt l1;
                 samplesReceived := 0 |}).
  pose proof (first_sample_spec (channelCount g) l1' (drop 1250 port)) as H2.
  destruct (first_sample _ l1' (drop 1250 port)) as [[l2 p2]|].
  2: { rewrite length_drop in H2.
       destruct H2 as [H2|H2]; [left; lia | right; rewrite H2; reflexivity]. }
  destruct H2 as (Hl2 & Hg2 & -> & Hs2 & _). rewrite Hg2. cbn [andb].
  subst l1'. cbn [samplesReceived] in Hs2.
  pose proof (fill_buffer_spec n2 g l2 (drop 1 (drop 1250 port))) as H3.
  rewrite Hs2 in H3.
  specialize (H3 ltac:(lia) ltac:(lia) ltac:(lia) ltac:(lia) ltac:(lia)).
  rewrite length_drop in Hl2.
  destruct (fill_buffer g l2 _) as [[[g3 l3] p3]|].
  2: { rewrite !length_drop in H3. destruct H3 as [H3|H3]; [left; lia | right; exact H3]. }
  destruct H3 as (Hl3 & Hg3 & -> & Hf3 & Hd3 & Ho3 & Hs3 & Hr3 & Hsr3).
  rewrite !length_drop in Hl3.
  destruct Hs3 as (Hir & Hor & _ & _ & Hcc3 & _ & Hib3 & Hob3).
  cbn. rewrite Hir, Hor.
  repeat split; try assumption; try lia.
Qed.

(** X3.  [startup] succeeds exactly when the port delivers
    [1251 + inputBufsize/2] good frames in a row: 1250 are flushed, one
    starts the filter and is stored nowhere, and [inputBufsize/2] go to the
    input buffer.  It then leaves the rest of the port unread, the output
    buffer as it was, the ratio at its nominal value and both flags set.
    It fails when the port runs dry or one of those frames is rejected.
    ([src_set_ratio] and [Pa_StartStream], which [startup] takes to succeed,
    are the two other ways out of the stage.) *)
Theorem startup_spec (g : globals) (l : locals) (port : list read_t) :
  samplesReceived l = 0 ->
  0 <= inputBufsize g <= INT_MAX ->
  0 <= frames (inputData g) <= INT_MAX ->
  match startup g l port with
  | Some (g', l', port') =>
      (startup_frames g <= length port)%nat
      /\ forallb good (take (startup_frames g) port) = true
      /\ port' = drop (startup_frames g) port
      /\ frames (inputData g')
         = frames (inputData g) + Z.quot (inputBufsize g) 2
      /\ length (data (inputData g')) = length (data (inputData g))
      /\ outputData g' = outputData g
      /\ resampleRatio g' = (outputRate g / inputRate g)%Q
      /\ enableResample g' = 1 /\ enableUpdate g' = 1
      /\ channelCount g' = channelCount g
      /\ inputBufsize g' = inputBufsize g
      /\ outputBufsize g' = outputBufsize g
      /\ samplesReceived l' = Z.quot (inputBufsize g) 2
  | None =>
      (length port < startup_frames g)%nat
      \/ forallb good (take (startup_frames g) port) = false
  end.
Proof. exact (startup_shape g l port). Qed.

End Startup.

(** X3 on the small settings: of 1260 good frames, 1253 are taken and 7 are
    left on the port. *)
Lemma startup_spec_witness :
  match startup small_globals init_locals (steady_port 1260) with
  | Some (g', l', port') =>
      length port' = 7%nat /\ frames (inputData g') = 2
      /\ enableUpdate g' = 1
  | None => False
  end.
Proof.
  assert (samplesReceived init_locals = 0) as H1 by reflexivity.
  assert (0 <= inputBufsize small_globals <= INT_MAX) as H2
    by (vm_compute; intuition discriminate).
  assert (0 <= frames (inputData small_globals) <= INT_MAX) as H3
    by (vm_compute; intuition discriminate).
  pose proof (startup_spec small_globals init_locals (steady_port 1260)
                H1 H2 H3) as H.
  revert H.
  destruct (startup small_globals init_locals (steady_port 1260))
    as [[[g' l'] port']|].
  - intros (_ & _ & Hport & Hfr & _ & _ & _ & _ & Hupd & _).
    split; [rewrite Hport; vm_compute; reflexivity|].
    split; [rewrite Hfr; vm_compute; reflexivity | exact Hupd].
  - intros [H|H]; vm_compute in H; [lia | discriminate].
Defined.

(** ** The filter on [eegdata] *)

Section Filter.

Context {R : Resampler}.

Lemma nth_insert (l : list Q) (k i : nat) (v d : Q) :
  nth i (<[k:=v]> l) d
  = if decide (i = k /\ (k < length l)%nat) then v else nth i l d.
Proof.
  rewrite !nth_lookup.
  destruct (decide (i = k /\ (k < length l)%nat)) as [[-> Hk]|Hn].
  - rewrite list_lookup_insert_eq by exact Hk. reflexivity.
  - destruct (decide (i = k)) as [->|Hne].
    + rewrite list_insert_ge by lia. reflexivity.
    + rewrite list_lookup_insert_ne by congruence. reflexivity.
Qed.

Lemma unicorn_pull_sample_length (rd : read_t) (dat : list Q) :
  unicorn_pull_sample rd = Some dat -> length dat = 16%nat.
Proof.
  unfold unicorn_pull_sample. destruct (_ || _); [discriminate|].
  intros [= <-]. reflexivity.
Qed.

Lemma init_filter_loop (n : nat) (filt dat : list Q) (i : nat) :
  (n <= length filt)%nat ->
  length (fold_left (fun filt i => <[i := nth i dat 0%Q]> filt) (seq 0 n) filt)
  = length filt
  /\ nth i (fold_left (fun filt i => <[i := nth i dat 0%Q]> filt)
                      (seq 0 n) filt) 0%Q
     = if decide (i < n)%nat then nth i dat 0%Q else nth i filt 0%Q.
Proof.
  induction n as [|n IH]; intros Hn.
  - cbn. split; [reflexivity|]. rewrite decide_False by lia. reflexivity.
  - rewrite seq_S, fold_left_app. cbn [fold_left Nat.add].
    destruct (IH ltac:(lia)) as (Hl & Hv).
    rewrite length_insert. split; [exact Hl|].
    rewrite nth_insert, Hl.
    destruct (decide (i = n /\ (n < length filt)%nat)) as [[-> _]|Hne].
    + rewrite decide_True by lia. reflexivity.
    + rewrite Hv. destruct (decide (i < n)%nat).
      * rewrite decide_True by lia. reflexivity.
      * rewrite decide_False by lia. reflexivity.
Qed.

Lemma lowpass_loop (n : nat) (filt dat : list Q) (i : nat) :
  (n <= length dat)%nat ->
  let step := fun dat i =>
    <[i := (nth i dat 0 - smooth (nth i filt 0) (nth i dat 0) lambda)%Q]> dat in
  length (fold_left step (seq 0 n) dat) = length dat
  /\ nth i (fold_left step (seq 0 n) dat) 0%Q
     = if decide (i < n)%nat
       then (nth i dat 0 - smooth (nth i filt 0) (nth i dat 0) lambda)%Q
       else nth i dat 0%Q.
Proof.
  intros Hn step. induction n as [|n IH].
  - cbn. split; [reflexivity|]. rewrite decide_False by lia. reflexivity.
  - rewrite seq_S, fold_left_app. cbn [fold_left Nat.add].
    destruct (IH ltac:(lia)) as (Hl & Hv).
    unfold step at 1 3. rewrite length_insert. split; [exact Hl|].
    rewrite nth_insert, Hl.
    destruct (decide (i = n /\ (n < length dat)%nat)) as [[-> _]|Hne].
    + rewrite Hv, decide_False, decide_True by lia. reflexivity.
    + rewrite Hv. destruct (decide (i < n)%nat).
      * rewrite decide_True by lia. reflexivity.
      * rewrite decide_False by lia. reflexivity.
Qed.

(** The filter, channel by channel: the first [cc] channels become
    [(1 - lambda) * (x - baseline)], the others are left alone. *)
Lemma lowpass_spec (cc : Z) (filt dat : list Q) (i : nat) :
  (Z.to_nat cc <= length dat)%nat ->
  length (lowpass cc filt dat) = length dat
  /\ ((i < Z.to_nat cc)%nat ->
      (nth i (lowpass cc filt dat) 0
       == (1 - lambda) * (nth i dat 0 - nth i filt 0))%Q)
  /\ ((Z.to_nat cc <= i)%nat ->
      nth i (lowpass cc filt dat) 0%Q = nth i dat 0%Q).
Proof.
  intros Hn. destruct (lowpass_loop (Z.to_nat cc) filt dat i Hn) as (Hl & Hv).
  unfold lowpass. cbv zeta in Hl, Hv. split; [exact Hl|]. rewrite Hv.
  split; intros Hi.
  - rewrite decide_True by lia. unfold smooth, lambda. lra.
  - rewrite decide_False by lia. reflexivity.
Qed.

(** X4.  What a turn of the producer loop leaves in [eegdata]: on each of
    the first [channelCount] channels, [(1 - lambda)] times the difference
    between the decoded sample and the stored baseline; the channels above
    keep their decoded values; the baseline is as before. *)
Theorem loop_body_filtered (g g' : globals) (l l' : locals) (rd : read_t) :
  0 <= channelCount g <= NCHAN ->
  loop_body g l rd = Some (g', l') ->
  exists dat,
    unicorn_pull_sample rd = Some dat
    /\ length (eegdata l') = 16%nat
    /\ eegfilt l' = eegfilt l
    /\ forall i : nat,
        (Z.of_nat i < channelCount g ->
         (nth i (eegdata l') 0
          == (1 - lambda) * (nth i dat 0 - nth i (eegfilt l) 0))%Q)
        /\ (channelCount g <= Z.of_nat i ->
            nth i (eegdata l') 0%Q = nth i dat 0%Q).
Proof.
  intros Hcc. unfold NCHAN in Hcc. unfold loop_body.
  destruct (unicorn_pull_sample rd) as [dat|] eqn:E; [|discriminate].
  intros [= <- <-]. exists dat. cbn [eegdata eegfilt].
  pose proof (unicorn_pull_sample_length rd dat E) as Hlen.
  split; [reflexivity|].
  split; [destruct (lowpass_spec (channelCount g) (eegfilt l) dat 0) as (-> & _);
          [lia | exact Hlen]|].
  split; [reflexivity|].
  intros i.
  destruct (lowpass_spec (channelCount g) (eegfilt l) dat i) as (_ & H1 & H2);
    [lia|].
  split; intros Hi; [apply H1 | apply H2]; lia.
Qed.

(** X5.  The sample that follows the flush becomes the baseline of each of
    the first [channelCount] channels, and is itself filtered to zero on
    those channels; it is the one frame read that is neither flushed nor
    stored in the input buffer. *)
Theorem first_sample_baseline (cc : Z) (l l' : locals)
    (port port' : list read_t) :
  0 <= cc <= NCHAN -> length (eegfilt l) = 16%nat ->
  first_sample cc l port = Some (l', port') ->
  exists rd dat,
    port = rd :: port' /\ unicorn_pull_sample rd = Some dat
    /\ length (eegfilt l') = 16%nat
    /\ forall i : nat,
        (Z.of_nat i < cc ->
         nth i (eegfilt l') 0%Q = nth i dat 0%Q
         /\ nth i (eegdata l') 0%Q == 0)
        /\ (cc <= Z.of_nat i ->
            nth i (eegfilt l') 0%Q = nth i (eegfilt l) 0%Q
            /\ nth i (eegdata l') 0%Q = nth i dat 0%Q).
Proof.
  intros Hcc Hlf. unfold NCHAN in Hcc. unfold first_sample.
  destruct port as [|rd port]; [discriminate|].
  destruct (unicorn_pull_sample rd) as [dat|] eqn:E; [|discriminate].
  intros [= <- <-]. exists rd, dat. cbn [eegdata eegfilt].
  pose proof (unicorn_pull_sample_length rd dat E) as Hlen.
  split; [reflexivity|]. split; [exact E|].
  unfold init_filter.
  split.
  { destruct (init_filter_loop (Z.to_nat cc) (eegfilt l) dat 0) as (-> & _);
      [lia | exact Hlf]. }
  intros i.
  destruct (init_filter_loop (Z.to_nat cc) (eegfilt l) dat i) as (_ & Hv);
    [lia|].
  match goal with |- context [lowpass cc ?f dat] => set (filt := f) in * end.
  destruct (lowpass_spec cc filt dat i) as (_ & H1 & H2); [lia|].
  split; intros Hi.
  - assert (nth i filt 0%Q = nth i dat 0%Q) as Hf.
    { rewrite Hv, decide_True by lia. reflexivity. }
    split; [exact Hf|]. rewrite H1 by lia. rewrite Hf. lra.
  - split; [|apply H2; lia].
    rewrite Hv, decide_False by lia. reflexivity.
Qed.

End Filter.

(** X4 on a frame of one count on channel 0, with the baseline at zero. *)
Lemma loop_body_filtered_witness :
  match loop_body small_globals init_locals
          {| result := 45; buf := frame_ch0 x00 x00 x01 |} with
  | Some (g', l') =>
      exists dat,
        unicorn_pull_sample {| result := 45; buf := frame_ch0 x00 x00 x01 |}
        = Some dat
        /\ (nth 0 (eegdata l') 0 == (1 - lambda) * (nth 0 dat 0 - 0))%Q
  | None => False
  end.
Proof.
  destruct (loop_body small_globals init_locals
              {| result := 45; buf := frame_ch0 x00 x00 x01 |})
    as [[g' l']|] eqn:E.
  - assert (0 <= channelCount small_globals <= NCHAN) as H1
      by (vm_compute; intuition discriminate).
    destruct (loop_body_filtered small_globals g' init_locals l' _ H1 E)
      as (dat & Hd & _ & _ & Hi).
    exists dat. split; [exact Hd|].
    apply (proj1 (Hi 0%nat)). vm_compute. reflexivity.
  - exfalso. revert E. apply loop_body_total. vm_compute. discriminate.
Defined.

(** X5 on a port of two frames: the first is consumed and filters to
    zero. *)
Lemma first_sample_baseline_witness :
  match first_sample 8 init_locals (steady_port 2) with
  | Some (l', port') =>
      port' = steady_port 1 /\ (nth 0 (eegdata l') 0 == 0)%Q
  | None => False
  end.
Proof.
  destruct (first_sample 8 init_locals (steady_port 2))
    as [[l' port']|] eqn:E.
  - assert (0 <= 8 <= NCHAN) as H1 by (vm_compute; intuition discriminate).
    assert (length (eegfilt init_locals) = 16%nat) as H2 by reflexivity.
    destruct (first_sample_baseline 8 init_locals l' (steady_port 2) port'
                H1 H2 E) as (rd & dat & Hp & _ & _ & Hi).
    split.
    + change (steady_port 2)
        with ({| result := 45; buf := frame_ch0 x00 x00 x01 |}
              :: steady_port 1) in Hp.
      injection Hp as _ Hp. exact (eq_sym Hp).
    + apply (proj1 (Hi 0%nat)). vm_compute. reflexivity.
  - vm_compute in E. discriminate.
Defined.

(** ** The branches of [update_ratio] and the sign of its correction *)

Section RatioDirection.

Context {R : Resampler}.

(** The three branches of [update_ratio] up to 52 percent. *)
Lemma update_ratio_low (g : globals) :
  0 <= outputBufsize g ->
  ((fill g < 0.40 * capacity g)%Q ->
   resampleRatio (update_ratio g)
   = smooth (resampleRatio g) (estimate g) (10 * BLOCKSIZE)%Q)
  /\ ((0.40 * capacity g <= fill g)%Q -> (fill g < 0.48 * capacity g)%Q ->
      resampleRatio (update_ratio g)
      = smooth (resampleRatio g) (estimate g) (1 * BLOCKSIZE)%Q)
  /\ ((0.48 * capacity g <= fill g)%Q -> (fill g <= 0.52 * capacity g)%Q ->
      resampleRatio (update_ratio g)
      = smooth (resampleRatio g) (nominal g) (10 * BLOCKSIZE)%Q).
Proof.
  intros Hb. unfold fill, capacity.
  assert (0 <= inject_Z (outputBufsize g))%Q as Hb'.
  { change 0%Q with (inject_Z 0). now rewrite <- Zle_Qle. }
  cbn [update_ratio set_resampleRatio resampleRatio].
  split; [|split].
  - intros H.
    destruct (qlt_spec (inject_Z (frames (outputData g)))
                       (0.40 * inject_Z (outputBufsize g))); [|lra].
    reflexivity.
  - intros H1 H2.
    destruct (qlt_spec (inject_Z (frames (outputData g)))
                       (0.40 * inject_Z (outputBufsize g))); [lra|].
    destruct (qlt_spec (inject_Z (frames (outputData g)))
                       (0.48 * inject_Z (outputBufsize g))); [|lra].
    reflexivity.
  - intros H1 H2.
    destruct (qlt_spec (inject_Z (frames (outputData g)))
                       (0.40 * inject_Z (outputBufsize g))); [lra|].
    destruct (qlt_spec (inject_Z (frames (outputData g)))
                       (0.48 * inject_Z (outputBufsize g))); [lra|].
    destruct (qlt_spec (0.52 * inject_Z (outputBufsize g))
                       (inject_Z (frames (outputData g)))); [lra|].
    destruct (qlt_spec (0.60 * inject_Z (outputBufsize g))
                       (inject_Z (frames (outputData g)))); [lra|].
    reflexivity.
Qed.

Lemma cmin_glb (x y z : Q) : (z <= x -> z <= y -> z <= cmin x y)%Q.
Proof. unfold cmin. destruct (qlt_spec x y); intros; assumption. Qed.

Lemma cmin_l (x y : Q) : (cmin x y <= x)%Q.
Proof. unfold cmin. destruct (qlt_spec x y); lra. Qed.

(** With a block size that is not zero the estimate is the quotient between
    the two clamps. *)
Lemma estimate_nonzero (g : globals) :
  outputBlocksize g <> 0 ->
  estimate g
  = cmax (cmin (nominal g
                + (0.5 * inject_Z (outputBufsize g)
                   - inject_Z (frames (outputData g)))
                  / inject_Z (outputBlocksize g))%Q
               (1.2 * nominal g)%Q)
         (0.8 * nominal g)%Q.
Proof.
  intros Hbs. unfold estimate. rewrite fdiv_nonzero.
  - cbn [fadd]. rewrite clamped_fin. reflexivity.
  - change 0%Q with (inject_Z 0). rewrite inject_Z_injective. exact Hbs.
Qed.

(** Under half full, the estimate is the upper bound for a block size of 0,
    where the quotient is an infinity, and for a positive block size it is
    the quotient under the upper clamp: the lower clamp does nothing. *)
Lemma estimate_underfilled (g : globals) :
  0 <= outputBlocksize g -> (0 <= nominal g)%Q ->
  (2 * fill g < capacity g)%Q ->
  (estimate g
   == if outputBlocksize g =? 0 then 1.2 * nominal g
      else cmin (nominal g
                 + (0.5 * capacity g - fill g)
                   / inject_Z (outputBlocksize g))
                (1.2 * nominal g))%Q.
Proof.
  intros Hbs Hn Hf. unfold fill, capacity in *.
  destruct (Z.eqb_spec (outputBlocksize g) 0) as [E|E].
  - unfold estimate. rewrite E.
    rewrite (proj1 (fdiv_zero _ (inject_Z 0) (Qeq_refl _))) by lra.
    cbn [fadd]. rewrite clamped_finite. cbn [fin_part]. unfold cmax.
    destruct (qlt_spec (0.8 * nominal g) (1.2 * nominal g)); lra.
  - rewrite estimate_nonzero by exact E.
    assert (0 < inject_Z (outputBlocksize g))%Q as Hbs'.
    { change 0%Q with (inject_Z 0). rewrite <- Zlt_Qlt. lia. }
    set (num := (0.5 * inject_Z (outputBufsize g)
                 - inject_Z (frames (outputData g)))%Q).
    assert (0 <= num / inject_Z (outputBlocksize g))%Q as Hq.
    { apply Qle_shift_div_l; [exact Hbs' | subst num; lra]. }
    set (c := cmin _ _).
    assert (0.8 * nominal g <= c)%Q as Hc
      by (subst c; apply cmin_glb; lra).
    unfold cmax. destruct (qlt_spec (0.8 * nominal g) c); lra.
Qed.

(** X6.  [update_ratio] below and inside the band, in closed form, for a
    block size that is not negative, a positive input rate and an output
    rate that is not negative.  Under 40 percent of the capacity the new
    ratio is [0.9 * ratio + 0.1 * target], from 40 to under 48 percent it is
    [0.99 * ratio + 0.01 * target], where [target] is the nominal ratio plus
    the deficit over the block size, at most [1.2 * nominal]; for a block
    size of 0 the quotient is an infinity and [target] is [1.2 * nominal].
    From 48 to 52 percent the new ratio is [0.9 * ratio + 0.1 * nominal]. *)
Theorem update_ratio_lower_branches (g : globals) :
  0 <= outputBufsize g -> 0 <= outputBlocksize g ->
  (0 < inputRate g)%Q -> (0 <= outputRate g)%Q ->
  let target :=
    if outputBlocksize g =? 0 then (1.2 * nominal g)%Q
    else cmin (nominal g
               + (0.5 * capacity g - fill g) / inject_Z (outputBlocksize g))%Q
              (1.2 * nominal g)%Q in
  ((fill g < 0.40 * capacity g)%Q ->
   (resampleRatio (update_ratio g)
    == 0.9 * resampleRatio g + 0.1 * target)%Q)
  /\ ((0.40 * capacity g <= fill g)%Q -> (fill g < 0.48 * capacity g)%Q ->
      (resampleRatio (update_ratio g)
       == 0.99 * resampleRatio g + 0.01 * target)%Q)
  /\ ((0.48 * capacity g <= fill g)%Q -> (fill g <= 0.52 * capacity g)%Q ->
      (resampleRatio (update_ratio g)
       == 0.9 * resampleRatio g + 0.1 * nominal g)%Q).
Proof.
  intros Hb Hbs Hir Hor target.
  assert (0 <= nominal g)%Q as Hn.
  { unfold nominal. apply Qle_shift_div_l; [exact Hir | lra]. }
  assert (0 <= capacity g)%Q as Hb'.
  { unfold capacity. change 0%Q with (inject_Z 0). now rewrite <- Zle_Qle. }
  destruct (update_ratio_low g Hb) as (L1 & L2 & L3).
  split; [|split].
  - intros Hf. rewrite (L1 Hf).
    pose proof (estimate_underfilled g Hbs Hn ltac:(lra)) as He.
    fold target in He. unfold smooth, BLOCKSIZE. lra.
  - intros Hf1 Hf2. rewrite (L2 Hf1 Hf2).
    pose proof (estimate_underfilled g Hbs Hn ltac:(lra)) as He.
    fold target in He. unfold smooth, BLOCKSIZE. lra.
  - intros Hf1 Hf2. rewrite (L3 Hf1 Hf2). unfold smooth, BLOCKSIZE. lra.
Qed.

(** The clamped estimate is on the side of the nominal ratio that refills a
    buffer under half full and drains one over half full. *)
Lemma estimate_side (g : globals) :
  0 < outputBlocksize g -> (0 <= nominal g)%Q ->
  ((2 * fill g <= capacity g)%Q -> (nominal g <= estimate g)%Q)
  /\ ((capacity g <= 2 * fill g)%Q -> (estimate g <= nominal g)%Q).
Proof.
  intros Hbs Hn. rewrite estimate_nonzero by lia. unfold fill, capacity.
  assert (0 < inject_Z (outputBlocksize g))%Q as Hbs'.
  { change 0%Q with (inject_Z 0). now rewrite <- Zlt_Qlt. }
  set (num := (0.5 * inject_Z (outputBufsize g)
               - inject_Z (frames (outputData g)))%Q).
  split; intros H.
  - assert (0 <= num / inject_Z (outputBlocksize g))%Q as Hq.
    { apply Qle_shift_div_l; [exact Hbs' | subst num; lra]. }
    eapply Qle_trans; [|apply cmax_l].
    apply cmin_glb; lra.
  - assert (num / inject_Z (outputBlocksize g) <= 0)%Q as Hq.
    { apply Qle_shift_div_r; [exact Hbs' | subst num; lra]. }
    apply cmax_lub; [|lra].
    eapply Qle_trans; [apply cmin_l|]. lra.
Qed.

Lemma smooth_toward (old target k : Q) :
  (0 <= k <= 1)%Q ->
  ((old <= target)%Q -> (old <= smooth old target k <= target)%Q)
  /\ ((target <= old)%Q -> (target <= smooth old target k <= old)%Q).
Proof.
  intros Hk. split; intros H; apply smooth_range; try assumption; lra.
Qed.

(** X7.  The sign of the correction.  With a positive block size, a
    positive input rate and an output rate that is not negative: when the
    output buffer holds less than 48 percent of its capacity and the ratio
    is at or below nominal, [update_ratio] does not lower it; when the
    buffer holds more than 52 percent and the ratio is at or above nominal,
    [update_ratio] does not raise it.  Between the two, the distance of the
    ratio to nominal shrinks by a tenth. *)
Theorem update_ratio_direction (g : globals) :
  0 <= outputBufsize g -> 0 < outputBlocksize g ->
  (0 < inputRate g)%Q -> (0 <= outputRate g)%Q ->
  ((fill g < 0.48 * capacity g)%Q -> (resampleRatio g <= nominal g)%Q ->
   (resampleRatio g <= resampleRatio (update_ratio g))%Q)
  /\ ((0.52 * capacity g < fill g)%Q -> (nominal g <= resampleRatio g)%Q ->
      (resampleRatio (update_ratio g) <= resampleRatio g)%Q)
  /\ ((0.48 * capacity g <= fill g)%Q -> (fill g <= 0.52 * capacity g)%Q ->
      (Qabs (resampleRatio (update_ratio g) - nominal g)
       == 0.9 * Qabs (resampleRatio g - nominal g))%Q).
Proof.
  intros Hb Hbs Hir Hor.
  assert (0 <= nominal g)%Q as Hn.
  { unfold nominal. apply Qle_shift_div_l; [exact Hir | lra]. }
  assert (0 <= capacity g)%Q as Hb'.
  { unfold capacity. change 0%Q with (inject_Z 0). now rewrite <- Zle_Qle. }
  destruct (estimate_side g Hbs Hn) as (Hup & Hdown).
  assert (0 <= 10 * BLOCKSIZE <= 1)%Q as H10 by (unfold BLOCKSIZE; lra).
  assert (0 <= 1 * BLOCKSIZE <= 1)%Q as H1 by (unfold BLOCKSIZE; lra).
  split; [|split].
  - intros Hf Hr. specialize (Hup ltac:(lra)).
    assert (resampleRatio g <= estimate g)%Q as Hle by lra.
    destruct (qlt_spec (fill g) (0.40 * capacity g)) as [Hlow|Hlow].
    + rewrite (proj1 (update_ratio_low g Hb) Hlow).
      apply (smooth_toward _ _ _ H10). exact Hle.
    + rewrite (proj1 (proj2 (update_ratio_low g Hb)));
        [| lra | exact Hf].
      apply (smooth_toward _ _ _ H1). exact Hle.
  - intros Hf Hr. specialize (Hdown ltac:(lra)).
    assert (estimate g <= resampleRatio g)%Q as Hle by lra.
    unfold fill, capacity in *.
    cbn [update_ratio set_resampleRatio resampleRatio].
    destruct (qlt_spec (inject_Z (frames (outputData g)))
                       (0.40 * inject_Z (outputBufsize g))); [lra|].
    destruct (qlt_spec (inject_Z (frames (outputData g)))
                       (0.48 * inject_Z (outputBufsize g))); [lra|].
    destruct (qlt_spec (0.52 * inject_Z (outputBufsize g))
                       (inject_Z (frames (outputData g)))); [|lra].
    apply (smooth_toward _ _ _ H1). exact Hle.
  - intros Hf1 Hf2.
    rewrite (proj2 (proj2 (update_ratio_low g Hb)) Hf1 Hf2).
    assert (smooth (resampleRatio g) (nominal g) (10 * BLOCKSIZE) - nominal g
            == 0.9 * (resampleRatio g - nominal g))%Q as ->.
    { unfold smooth, BLOCKSIZE. lra. }
    rewrite Qabs_Qmult. rewrite (Qabs_pos 0.9) by lra. reflexivity.
Qed.

End RatioDirection.

(** X6 for a block size of 0 at 44100 Hz, with an empty output buffer and
    the ratio at its nominal value 176.4: the target is [1.2 * 176.4] and
    the new ratio is 179.928. *)
Lemma update_ratio_lower_branches_witness :
  (resampleRatio (update_ratio (start_running zero_block_globals))
   == 179.928)%Q.
Proof.
  assert (0 <= outputBufsize (start_running zero_block_globals)) as H1
    by (vm_compute; discriminate).
  assert (0 <= outputBlocksize (start_running zero_block_globals)) as H2
    by (vm_compute; discriminate).
  assert (0 < inputRate (start_running zero_block_globals))%Q as H3
    by (vm_compute; reflexivity).
  assert (0 <= outputRate (start_running zero_block_globals))%Q as H4
    by (vm_compute; discriminate).
  pose proof (update_ratio_lower_branches _ H1 H2 H3 H4) as H.
  cbv zeta in H. destruct H as (H & _ & _).
  eapply Qeq_trans; [apply H|]; vm_compute; reflexivity.
Defined.

(** X7 on the started stream with 10 of 160 frames in the output buffer:
    the ratio is nominal and is not lowered. *)
Lemma update_ratio_direction_witness :
  (resampleRatio (with_fill (primed small_globals 1253) 10)
   <= resampleRatio (update_ratio (with_fill (primed small_globals 1253) 10)))%Q.
Proof.
  assert (0 <= outputBufsize (with_fill (primed small_globals 1253) 10))
    as H1 by (vm_compute; discriminate).
  assert (0 < outputBlocksize (with_fill (primed small_globals 1253) 10))
    as H2 by (vm_compute; reflexivity).
  assert (0 < inputRate (with_fill (primed small_globals 1253) 10))%Q
    as H3 by (vm_compute; reflexivity).
  assert (0 <= outputRate (with_fill (primed small_globals 1253) 10))%Q
    as H4 by (vm_compute; discriminate).
  apply (proj1 (update_ratio_direction _ H1 H2 H3 H4)).
  - vm_compute. reflexivity.
  - vm_compute. discriminate.
Defined.

(** ** The buffers along a run *)

Section RunInvariant.

Context {R : Resampler}.

Lemma config_ok_same (g g' : globals) :
  same_settings g g' -> config_ok g -> config_ok g'.
Proof.
  unfold config_ok. intros (_ & _ & _ & _ & -> & _ & -> & ->). tauto.
Qed.

Lemma resample_buffers_input_le (g g' : globals) :
  0 <= frames (inputData g) < 2 ^ 63 ->
  resample_buffers g = Returned g' ->
  0 <= frames (inputData g') <= frames (inputData g).
Proof.
  intros Hfi. unfold resample_buffers. cbv zeta.
  cbn [set_resample inputData outputData outputBufsize channelCount
       resampleState].
  destruct (_ =? 0).
  { intros [= <-]. cbn. lia. }
  destruct (_ =? _).
  { intros [= <-]. cbn. lia. }
  set (r := src_process _ _ _ _).
  destruct (Z.eqb_spec (src_err r) 0) as [Herr|]; [|discriminate].
  cbn [negb]. intros [= <-].
  pose proof (src_process_used (resampleState g) (channelCount g) (request g)
                (data (inputData g)) Herr) as Hu.
  fold r in Hu.
  assert (input_frames (request g) = frames (inputData g)) as Hin.
  { cbn. apply to_long_small. lia. }
  rewrite Hin in Hu. specialize (Hu ltac:(lia)).
  cbn. rewrite ulong_small by lia. lia.
Qed.

Lemma output_callback_input_le (g g' : globals) (output dest : list Q)
    (frameCount code : Z) :
  0 <= frames (inputData g) < 2 ^ 63 ->
  output_callback g output frameCount = Returned (dest, g', code) ->
  0 <= frames (inputData g') <= frames (inputData g).
Proof.
  intros Hfi. unfold output_callback.
  destruct (drain_frame g output frameCount) as (_ & _ & Hin & _ & _).
  destruct (drain g output frameCount) as [d g1]. cbn [fst snd] in *.
  destruct (enableResample g1 =? 0).
  - intros [= _ <- _]. destruct (_ =? 0); cbn; rewrite Hin; lia.
  - destruct (resample_buffers g1) as [g2|] eqn:E; [|discriminate].
    intros [= _ <- _].
    apply resample_buffers_input_le in E; [|rewrite Hin; exact Hfi].
    rewrite Hin in E. destruct (_ =? 0); cbn; lia.
Qed.

(** X8.  The output half of the buffer invariant, and what bounds the input
    count.  From a well-formed state, along any sequence of producer turns
    and well-formed calls of the callback, the output buffer keeps its
    length and holds between 0 and [outputBufsize] frames; the input count
    is never negative and never above its starting value plus the number of
    producer turns: the callback only takes from it. *)
Theorem run_output_ok (evs : list event) (g : globals) (l : locals) :
  config_ok g -> output_ok g ->
  0 <= frames (inputData g) ->
  frames (inputData g) + Z.of_nat (length evs) < 2 ^ 63 ->
  Forall (event_ok (channelCount g)) evs ->
  config_ok (fst (run (g, l) evs))
  /\ output_ok (fst (run (g, l) evs))
  /\ 0 <= frames (inputData (fst (run (g, l) evs)))
     <= frames (inputData g) + Z.of_nat (pulls evs).
Proof.
  revert g l. induction evs as [|e evs IH]; intros g l Hc Ho Hf Hlen Hev.
  - cbn. split; [exact Hc|]. split; [exact Ho|]. lia.
  - apply Forall_cons in Hev. destruct Hev as (He & Hev).
    cbn [length] in Hlen. cbn [run].
    destruct (step (g, l) e) as [[g1 l1]|] eqn:E.
    2: { cbn [fst]. split; [exact Hc|]. split; [exact Ho|]. lia. }
    assert (config_ok g1 /\ output_ok g1 /\ channelCount g1 = channelCount g
            /\ 0 <= frames (inputData g1)
               <= frames (inputData g)
                  + Z.of_nat (pulls [e])) as (Hc1 & Ho1 & Hcc1 & Hf1).
    { destruct e as [rd|output frameCount]; cbn [step fst snd] in E.
      - apply loop_body_frame in E.
        destruct E as (Hs & _ & Hout & Hfr & _).
        rewrite ulong_small in Hfr by lia.
        split; [exact (config_ok_same _ _ Hs Hc)|].
        destruct Hs as (_ & _ & _ & _ & Hcc & _ & _ & Hob).
        split; [unfold output_ok; rewrite Hout, Hcc, Hob; exact Ho|].
        split; [exact Hcc|]. rewrite Hfr. cbn. lia.
      - destruct (output_callback g output frameCount)
          as [[[d g2] c]|] eqn:E'; [|discriminate].
        injection E as <- <-. destruct He as (He1 & He2 & He3).
        destruct (output_callback_frame _ _ _ _ _ _ E') as (Hs & _).
        destruct (output_callback_output_ok g g2 output d frameCount c
                    Hc Ho ltac:(lia) He1 He2 He3 E') as (Ho1 & _).
        pose proof (output_callback_input_le g g2 output d frameCount c
                      ltac:(lia) E') as Hf1.
        split; [exact (config_ok_same _ _ Hs Hc)|].
        split; [exact Ho1|].
        destruct Hs as (_ & _ & _ & _ & Hcc & _).
        split; [exact Hcc|]. cbn. lia. }
    destruct (IH g1 l1 Hc1 Ho1 ltac:(lia)) as (Hc2 & Ho2 & Hf2).
    + cbn in Hf1. destruct e; cbn in Hf1; lia.
    + rewrite Hcc1. exact Hev.
    + split; [exact Hc2|]. split; [exact Ho2|].
      assert (pulls (e :: evs) = (pulls [e] + pulls evs)%nat) as ->
        by (destruct e; reflexivity).
      lia.
Qed.

End RunInvariant.

(** X8 on the started stream: a frame, a callback for a block of 80 frames,
    another frame. *)
Lemma run_output_ok_witness :
  output_ok
    (fst (run (primed small_globals 1253, init_locals)
              [Pull {| result := 45; buf := frame_ch0 x00 x00 x01 |};
               Callback (replicate 160 0%Q) 80;
               Pull {| result := 45; buf := frame_ch0 x00 x00 x01 |}])).
Proof.
  assert (config_ok (primed small_globals 1253)) as H1
    by (vm_compute; intuition discriminate).
  assert (output_ok (primed small_globals 1253)) as H2
    by (vm_compute; intuition (discriminate || reflexivity)).
  assert (0 <= frames (inputData (primed small_globals 1253))) as H3
    by (vm_compute; discriminate).
  apply (run_output_ok _ (primed small_globals 1253) init_locals H1 H2 H3).
  - vm_compute. reflexivity.
  - repeat (constructor;
            [vm_compute; intuition (discriminate || reflexivity)|]).
    constructor.
Defined.

(** ** What the callback and the producer write *)

Section CallbackLimit.

Context {R : Resampler}.


(** With the converter and the controller switched off the callback is the
    hand-over alone. *)
Lemma output_callback_off (g : globals) (output : list Q) (frameCount : Z) :
  enableResample g = 0 -> enableUpdate g = 0 ->
  output_callback g output frameCount
  = Returned (fst (drain g output frameCount),
              snd (drain g output frameCount), paContinue).
Proof.
  intros Hr Hu. unfold output_callback.
  destruct (drain_frame g output frameCount) as (Hs & _).
  destruct (drain g output frameCount) as [d g1]. cbn [fst snd] in *.
  destruct Hs as (_ & _ & Her & Heu & _).
  rewrite Her, Hr. cbn [Z.eqb]. rewrite Heu, Hu. reflexivity.
Qed.



Lemma store_loop_elsewhere (dat : list Q) (g : globals) (n j : nat) :
  0 <= frames (inputData g) -> 0 <= channelCount g ->
  frames (inputData g) * channelCount g + Z.of_nat n < 2 ^ 64 ->
  (Z.of_nat j < frames (inputData g) * channelCount g
   \/ frames (inputData g) * channelCount g + Z.of_nat n <= Z.of_nat j) ->
  data (inputData (fold_left (store_channel dat) (seq 0 n) g)) !! j
  = data (inputData g) !! j.
Proof.
  intros Hf Hc. induction n as [|n IH]; intros Hlen Hj; [reflexivity|].
  rewrite seq_S, fold_left_app. cbn [fold_left Nat.add].
  destruct (store_loop_frame dat (seq 0 n) g) as (Hs & _ & _ & Hfr & _).
  specialize (IH ltac:(lia) ltac:(lia)).
  set (gn := fold_left (store_channel dat) (seq 0 n) g) in *.
  cbv zeta in Hs, Hfr. destruct Hs as (_ & _ & _ & _ & Hcc & _).
  unfold store_channel. cbn [set_inputData inputData data].
  rewrite Hfr, Hcc.
  assert (0 <= frames (inputData g) * channelCount g) by nia.
  rewrite ulong_small by lia.
  rewrite list_lookup_insert_ne by lia.
  exact IH.
Qed.

(** X10.  A turn of the producer loop writes the frame at index
    [inputData.frames] and nothing else: the frames queued before it, and
    the floats behind the new frame, are as they were. *)
Theorem loop_body_writes_one_frame (g g' : globals) (l l' : locals)
    (rd : read_t) (j : nat) :
  0 <= channelCount g -> 0 <= frames (inputData g) ->
  (frames (inputData g) + 1) * channelCount g < 2 ^ 64 ->
  loop_body g l rd = Some (g', l') ->
  (Z.of_nat j < frames (inputData g) * channelCount g
   \/ (frames (inputData g) + 1) * channelCount g <= Z.of_nat j) ->
  data (inputData g') !! j = data (inputData g) !! j.
Proof.
  intros Hc Hf Hlen. unfold loop_body.
  destruct (unicorn_pull_sample rd) as [dat|]; [|discriminate].
  intros [= <- _] Hj. unfold append_sample.
  cbn [set_inputData inputData data].
  apply store_loop_elsewhere; try assumption; nia.
Qed.

End CallbackLimit.


(** X10 on the started stream: the first float of the two queued frames
    is as it was. *)
Lemma loop_body_writes_one_frame_witness :
  match loop_body (primed small_globals 1253) init_locals
          {| result := 45; buf := frame_ch0 x00 x00 x01 |} with
  | Some (g', _) =>
      data (inputData g') !! 0%nat
      = data (inputData (primed small_globals 1253)) !! 0%nat
  | None => False
  end.
Proof.
  destruct (loop_body (primed small_globals 1253) init_locals
              {| result := 45; buf := frame_ch0 x00 x00 x01 |})
    as [[g' l']|] eqn:E.
  - refine (loop_body_writes_one_frame (primed small_globals 1253) g'
              init_locals l' _ 0 _ _ _ E _).
    + vm_compute. discriminate.
    + vm_compute. discriminate.
    + vm_compute. reflexivity.
    + left. vm_compute. reflexivity.
  - exfalso. revert E. apply loop_body_total. vm_compute. discriminate.
Defined.

(** ** The callback in two calls or in one *)

Section CallbackSplit.

Context {R : Resampler}.

Lemma drain_ok (g : globals) (output : list Q) (frameCount : Z) :
  config_ok g -> output_ok g ->
  0 <= frameCount -> frameCount * channelCount g < 2 ^ 64 ->
  Z.of_nat (length output) = frameCount * channelCount g ->
  config_ok (snd (drain g output frameCount))
  /\ output_ok (snd (drain g output frameCount))
  /\ same_settings g (snd (drain g output frameCount)).
Proof.
  intros Hc Ho Hfc Hfcc Hout.
  destruct (drain_spec g output frameCount Hc Ho Hfc Hfcc Hout)
    as (_ & Hd2 & _).
  destruct (drain_frame g output frameCount) as (Hs & _).
  split; [|split; [|exact Hs]].
  - unfold config_ok in *.
    destruct Hs as (_ & _ & _ & _ & -> & _ & -> & ->). exact Hc.
  - destruct Ho as (Hf & Hlen).
    destruct Hs as (_ & _ & _ & _ & Hcc & _ & _ & Hob).
    unfold output_ok, buffer_ok. rewrite Hd2, Hcc, Hob.
    split; [lia|]. unfold drain. cbn. rewrite length_memcpy. exact Hlen.
Qed.

Lemma frames_add (cc x y : Z) :
  0 <= cc -> 0 <= x -> 0 <= y ->
  Z.to_nat ((x + y) * cc) = (Z.to_nat (x * cc) + Z.to_nat (y * cc))%nat.
Proof.
  intros. rewrite Z.mul_add_distr_r. apply Z2Nat.inj_add; apply Z.mul_nonneg_nonneg; assumption.
Qed.

Lemma frames_le (cc x y : Z) :
  0 <= cc -> x <= y -> (Z.to_nat (x * cc) <= Z.to_nat (y * cc))%nat.
Proof.
  intros. assert (x * cc <= y * cc) by (apply Z.mul_le_mono_nonneg_r; assumption). lia.
Qed.

(** X11.  Two calls in a row hand over what one call for the sum of the two
    frame counts would: with the converter and the controller switched off
    (as while the input buffer is first filled), the two destinations put
    end to end are the destination of the single call, and the frames left
    in the buffer are the same.  Frames leave the buffer in the order they
    are in, and the zeros come last. *)
Theorem callback_twice (g : globals) (out1 out2 out12 : list Q) (n1 n2 : Z) :
  config_ok g -> output_ok g ->
  enableResample g = 0 -> enableUpdate g = 0 ->
  0 <= n1 -> 0 <= n2 -> (n1 + n2) * channelCount g < 2 ^ 64 ->
  Z.of_nat (length out1) = n1 * channelCount g ->
  Z.of_nat (length out2) = n2 * channelCount g ->
  Z.of_nat (length out12) = (n1 + n2) * channelCount g ->
  exists d1 g1 d2 g2 d12 g12,
    output_callback g out1 n1 = Returned (d1, g1, paContinue)
    /\ output_callback g1 out2 n2 = Returned (d2, g2, paContinue)
    /\ output_callback g out12 (n1 + n2) = Returned (d12, g12, paContinue)
    /\ d12 = d1 ++ d2
    /\ frames (outputData g12) = frames (outputData g2)
    /\ take (Z.to_nat (frames (outputData g2) * channelCount g))
            (data (outputData g12))
       = take (Z.to_nat (frames (outputData g2) * channelCount g))
              (data (outputData g2)).
Proof.
  intros Hc Ho Hr Hu Hn1 Hn2 Hn Hl1 Hl2 Hl12.
  pose proof Hc as (Hcc & _ & _ & Hob & Hom). unfold INT_MAX in Hom.
  pose proof Ho as (Hf & Hlen).
  assert (n1 * channelCount g < 2 ^ 64 /\ n2 * channelCount g < 2 ^ 64)
    as (Hn1c & Hn2c) by nia.
  destruct (drain_spec g out1 n1 Hc Ho Hn1 Hn1c Hl1) as (Hd1 & Hf1 & HD1).
  destruct (drain_ok g out1 n1 Hc Ho Hn1 Hn1c Hl1) as (Hc1 & Ho1 & Hs1).
  assert (channelCount (snd (drain g out1 n1)) = channelCount g
          /\ enableResample (snd (drain g out1 n1)) = 0
          /\ enableUpdate (snd (drain g out1 n1)) = 0) as (Hcc1 & Hr1 & Hu1).
  { destruct Hs1 as (_ & _ & -> & -> & -> & _). tauto. }
  rewrite <- Hcc1 in Hn2c, Hl2.
  destruct (drain_spec (snd (drain g out1 n1)) out2 n2 Hc1 Ho1 Hn2 Hn2c Hl2)
    as (Hd2 & Hf2 & HD2).
  rewrite Hcc1 in Hd2, HD2. rewrite Hf1 in Hd2, Hf2, HD2.
  rewrite HD1 in Hd2, HD2.
  destruct (drain_spec g out12 (n1 + n2) Hc Ho ltac:(lia) Hn Hl12)
    as (Hd12 & Hf12 & HD12).
  exists (fst (drain g out1 n1)), (snd (drain g out1 n1)),
    (fst (drain (snd (drain g out1 n1)) out2 n2)),
    (snd (drain (snd (drain g out1 n1)) out2 n2)),
    (fst (drain g out12 (n1 + n2))), (snd (drain g out12 (n1 + n2))).
  split; [apply output_callback_off; assumption|].
  split; [apply output_callback_off; assumption|].
  split; [apply output_callback_off; assumption|].
  rewrite Hd12, Hd1, Hd2, Hf12, Hf2, HD12, HD2.
  clear Hd12 Hd1 Hd2 Hf12 Hf2 HD12 HD2 HD1 Hf1 Hc1 Ho1 Hs1 Hcc1 Hr1 Hu1 Hl1
    Hl2 Hl12 Hn1c Hn2c Hr Hu Hc Ho.
  set (cc := channelCount g) in *. set (f := frames (outputData g)) in *.
  set (D := data (outputData g)) in *.
  set (m1 := Z.min n1 f). set (m2 := Z.min n2 (f - m1)).
  assert (Z.min (n1 + n2) f = m1 + m2) as -> by lia.
  assert (0 <= m1 <= f /\ 0 <= m2 <= f - m1 /\ m1 <= n1 /\ m2 <= n2)
    as (Hm1 & Hm2 & Hm1' & Hm2') by lia.
  assert (m2 = 0 \/ m1 = n1) as Hcase by lia.
  assert (f <= outputBufsize g) as Hfb by lia.
  assert (0 <= cc) as Hcc0 by lia.
  assert (length D = Z.to_nat (outputBufsize g * cc)) as HlenD by lia.
  clearbody m1 m2 cc f D. clear Hcc Hom Hlen Hf Hn.
  assert (Z.to_nat (outputBufsize g * cc)
          = (Z.to_nat (m1 * cc) + Z.to_nat (m2 * cc)
             + Z.to_nat ((f - m1 - m2) * cc)
             + Z.to_nat ((outputBufsize g - f) * cc))%nat) as Hsplit.
  { rewrite <- !frames_add by lia. f_equal. lia. }
  assert (Z.to_nat ((f - m1) * cc)
          = (Z.to_nat (m2 * cc) + Z.to_nat ((f - m1 - m2) * cc))%nat) as Hf1.
  { rewrite <- frames_add by lia. f_equal. lia. }
  split; [|split].
  - rewrite (frames_add cc m1 m2) by lia.
    destruct Hcase as [E0|E1].
    + subst m2. rewrite Z.mul_0_l. change (Z.to_nat 0) with 0%nat.
      rewrite take_0, app_nil_l, Nat.add_0_r, Z.add_0_r, Z.sub_0_r.
      rewrite <- app_assoc, <- replicate_add, <- frames_add by lia.
      do 3 f_equal. lia.
    + subst m1. rewrite Z.sub_diag, Z.mul_0_l. change (Z.to_nat 0) with 0%nat.
      cbn [replicate]. rewrite app_nil_r.
      rewrite take_app_le by (rewrite length_take, length_drop; lia).
      rewrite take_take, Nat.min_l by lia.
      rewrite app_assoc, take_take_drop.
      do 3 f_equal. lia.
  - lia.
  - replace (f - (m1 + m2)) with (f - m1 - m2) by lia.
    rewrite (frames_add cc m1 m2) by lia.
    set (a1 := Z.to_nat (m1 * cc)) in *. set (a2 := Z.to_nat (m2 * cc)) in *.
    set (L := Z.to_nat ((f - m1 - m2) * cc)) in *.
    set (F1 := Z.to_nat ((f - m1) * cc)) in *.
    clearbody a1 a2 L F1.
    rewrite !take_app_length'.
    2: { rewrite length_take, length_drop, length_app, length_take,
           !length_drop. lia. }
    2: { rewrite length_take, length_drop. lia. }
    rewrite drop_app_le by (rewrite length_take, length_drop; lia).
    rewrite take_app_length'.
    2: { rewrite length_drop, length_take, length_drop. lia. }
    rewrite <- drop_drop, (take_drop_commute (drop a1 D) L a2).
    rewrite Hf1. reflexivity.
Qed.

End CallbackSplit.

(** X11 on a buffer of three frames: two calls for one frame each against
    one call for two. *)
Lemma callback_twice_witness :
  exists d1 g1 d2 g2 d12 g12,
    output_callback (with_fill small_globals 3) (replicate 2 1%Q) 1
    = Returned (d1, g1, paContinue)
    /\ output_callback g1 (replicate 2 1%Q) 1 = Returned (d2, g2, paContinue)
    /\ output_callback (with_fill small_globals 3) (replicate 4 1%Q) (1 + 1)
       = Returned (d12, g12, paContinue)
    /\ d12 = d1 ++ d2.
Proof.
  assert (config_ok (with_fill small_globals 3)) as H1
    by (vm_compute; intuition discriminate).
  assert (output_ok (with_fill small_globals 3)) as H2
    by (vm_compute; intuition (discriminate || reflexivity)).
  destruct (callback_twice (with_fill small_globals 3)
              (replicate 2 1%Q) (replicate 2 1%Q) (replicate 4 1%Q) 1 1
              H1 H2)
    as (d1 & g1 & d2 & g2 & d12 & g12 & E1 & E2 & E12 & Hd & _).
  - reflexivity.
  - reflexivity.
  - vm_compute. discriminate.
  - vm_compute. discriminate.
  - vm_compute. reflexivity.
  - vm_compute. reflexivity.
  - vm_compute. reflexivity.
  - vm_compute. reflexivity.
  - exists d1, g1, d2, g2, d12, g12. auto.
Defined.

(** ** The state before and after [startup] *)

Section Init.

Context {R : Resampler}.

Lemma to_int_nonneg (q : Q) : (0 <= q)%Q -> 0 <= to_int q.
Proof.
  destruct q as [a b]. unfold Qle, to_int. cbn. intros H.
  apply Z.quot_pos; lia.
Qed.

(** X12.  The state that stages 1 to 3 of [main] set up is well formed: for a
    buffer length and a sink rate that are not negative, a channel count
    from 1 to 8 and buffer sizes that fit an [int], both buffers are empty,
    all zeros and of the length [malloc] was asked for, the flags are off
    and [outputLimit] is 1. *)
Theorem init_globals_ok (bufferSize blockSize rate : Q) (cc : Z)
    (s : SRC_STATE) :
  (0 <= bufferSize)%Q -> (0 <= rate)%Q -> 1 <= cc <= 8 ->
  to_int (bufferSize * inject_Z FSAMPLE) * cc <= INT_MAX ->
  to_int (bufferSize * rate) * cc <= INT_MAX ->
  let g := init_globals bufferSize blockSize rate cc s in
  config_ok g /\ input_ok g /\ output_ok g
  /\ frames (inputData g) = 0 /\ frames (outputData g) = 0
  /\ Forall (fun x => x = 0%Q) (data (inputData g))
  /\ Forall (fun x => x = 0%Q) (data (outputData g))
  /\ enableResample g = 0 /\ enableUpdate g = 0.
Proof.
  intros Hb Hr Hcc Hi Ho g.
  assert (0 <= to_int (bufferSize * inject_Z FSAMPLE)) as Hi0.
  { apply to_int_nonneg. apply Qmult_le_0_compat; [exact Hb|].
    unfold FSAMPLE. cbn. discriminate. }
  assert (0 <= to_int (bufferSize * rate)) as Ho0.
  { apply to_int_nonneg. apply Qmult_le_0_compat; assumption. }
  unfold config_ok, input_ok, output_ok, buffer_ok. subst g.
  cbn [init_globals channelCount inputBufsize outputBufsize inputData
       outputData frames data enableResample enableUpdate].
  rewrite !length_replicate.
  repeat split; try assumption; try lia; try nia.
  all: apply Forall_replicate; reflexivity.
Qed.

(** X13.  [startup] hands a well-formed state on to the loop that processes
    data: from a well-formed state with an empty input buffer, the input
    buffer is filled to half its capacity, rounded down, and so within it,
    and the output buffer is as it was. *)
Theorem startup_well_formed (g g' : globals) (l l' : locals)
    (port port' : list read_t) :
  config_ok g -> input_ok g -> output_ok g ->
  frames (inputData g) = 0 -> samplesReceived l = 0 ->
  startup g l port = Some (g', l', port') ->
  config_ok g' /\ input_ok g' /\ output_ok g'
  /\ frames (inputData g') = Z.quot (inputBufsize g') 2.
Proof.
  intros Hc Hi Ho Hf Hsr E.
  pose proof Hc as (Hcc & Hib & Him & Hob & Hom). unfold INT_MAX in *.
  assert (inputBufsize g <= 2 ^ 31 - 1) as Hib' by nia.
  pose proof (startup_shape g l port Hsr) as H. unfold INT_MAX in H.
  specialize (H ltac:(lia) ltac:(lia)). rewrite E in H.
  destruct H as (_ & _ & _ & Hfr & Hlen & Hout & _ & _ & _ & Hcc' & Hib2
                 & Hob2 & _).
  pose proof (quot2_range (inputBufsize g) ltac:(lia)) as Hq.
  destruct Hi as (_ & Hli). destruct Ho as (Hfo & Hlo).
  unfold config_ok, input_ok, output_ok, buffer_ok.
  rewrite Hcc', Hib2, Hob2, Hout, Hfr, Hlen, Hf.
  repeat split; try assumption; try lia.
Qed.

End Init.

(** X12 on the small settings. *)
Lemma init_globals_ok_witness :
  config_ok small_globals /\ input_ok small_globals
  /\ output_ok small_globals.
Proof.
  assert (0 <= 0.02)%Q as H1 by (vm_compute; discriminate).
  assert (0 <= 8000)%Q as H2 by (vm_compute; discriminate).
  assert (1 <= 2 <= 8) as H3 by (vm_compute; intuition discriminate).
  assert (to_int (0.02 * inject_Z FSAMPLE) * 2 <= INT_MAX) as H4
    by (vm_compute; discriminate).
  assert (to_int (0.02 * 8000) * 2 <= INT_MAX) as H5
    by (vm_compute; discriminate).
  destruct (@init_globals_ok copy_resampler 0.02 0.01 8000 2 tt H1 H2 H3 H4 H5)
    as (A & B & C & _).
  exact (conj A (conj B C)).
Defined.

(** X13 on the small settings and a port of 1253 good frames. *)
Lemma startup_well_formed_witness :
  match startup small_globals init_locals (steady_port 1253) with
  | Some (g', _, _) =>
      config_ok g' /\ input_ok g' /\ output_ok g'
      /\ frames (inputData g') = Z.quot (inputBufsize g') 2
  | None => False
  end.
Proof.
  destruct (startup small_globals init_locals (steady_port 1253))
    as [[[g' l'] port']|] eqn:E.
  - refine (startup_well_formed small_globals g' init_locals l' _ port'
              _ _ _ _ _ E).
    + vm_compute. intuition discriminate.
    + vm_compute. intuition (discriminate || reflexivity).
    + vm_compute. intuition (discriminate || reflexivity).
    + reflexivity.
    + reflexivity.
  - vm_compute in E. discriminate.
Defined.

(** ** [rand_str] *)

Section RandStr.

Import Lsl.

Lemma rand_index_value (RAND_MAX r : Z) :
  0 < RAND_MAX -> 0 <= r -> rand_index RAND_MAX r = 36 * r / RAND_MAX.
Proof.
  intros HM Hr. unfold rand_index, to_int.
  destruct RAND_MAX as [|p|p]; try lia.
  cbn. rewrite Pos.mul_1_r, Z.mul_1_r.
  rewrite Z.quot_div_nonneg by lia. f_equal. lia.
Qed.

Lemma rand_index_range (RAND_MAX r : Z) :
  0 < RAND_MAX -> 0 <= r <= RAND_MAX ->
  0 <= rand_index RAND_MAX r <= 36
  /\ (rand_index RAND_MAX r = 36 <-> r = RAND_MAX).
Proof.
  intros HM Hr. rewrite rand_index_value by lia.
  assert (0 <= 36 * r / RAND_MAX) by (apply Z.div_pos; lia).
  assert (36 * r / RAND_MAX <= 36).
  { apply Z.div_le_upper_bound; lia. }
  split; [lia|]. split.
  - intros E. destruct (Z.eq_dec r RAND_MAX) as [|Hne]; [assumption|].
    assert (36 * r / RAND_MAX < 36); [|lia].
    apply Z.div_lt_upper_bound; lia.
  - intros ->. apply Z.div_mul. lia.
Qed.

(** A character drawn with an index below 36 is a digit or a lower-case
    letter, and the one drawn with index 36 is the NUL. *)
Lemma charset_nth (i : Z) :
  0 <= i <= 36 ->
  (nth (Z.to_nat i) charset x00 = x00 <-> i = 36)
  /\ (i < 36 -> In (nth (Z.to_nat i) charset x00) (take 36 charset)).
Proof.
  intros Hi. split.
  - assert (forallb (fun n => Bool.eqb (Byte.eqb (nth n charset x00) x00)
                                       (Nat.eqb n 36))
                    (seq 0 37) = true) as Hall by (vm_compute; reflexivity).
    rewrite forallb_forall in Hall.
    specialize (Hall (Z.to_nat i)). rewrite in_seq in Hall.
    specialize (Hall ltac:(lia)). apply Bool.eqb_prop in Hall.
    split.
    + intros E. rewrite E in Hall. cbn in Hall. symmetry in Hall.
      apply Nat.eqb_eq in Hall. lia.
    + intros ->. reflexivity.
  - intros Hlt.
    assert (nth (Z.to_nat i) charset x00
            = nth (Z.to_nat i) (take 36 charset) x00) as ->.
    { rewrite !nth_lookup, lookup_take_lt by lia. reflexivity. }
    apply nth_In. rewrite length_take. cbn. lia.
Qed.

Lemma rand_str_from_spec (RAND_MAX : Z) (rand : nat -> Z) (n : nat) :
  forall (k : nat) (dest : list byte) (pos : nat),
    (pos + n < length dest)%nat ->
    let s := rand_str_from RAND_MAX rand k dest pos n in
    length s = length dest
    /\ s !! (pos + n)%nat = Some x00
    /\ (forall i, (i < n)%nat ->
          s !! (pos + i)%nat
          = Some (nth (Z.to_nat (rand_index RAND_MAX (rand (k + i)%nat)))
                      charset x00))
    /\ (forall j, (j < pos \/ pos + n < j)%nat -> s !! j = dest !! j).
Proof.
  induction n as [|n IH]; intros k dest pos Hlen; cbn [rand_str_from].
  - cbv zeta. rewrite length_insert, Nat.add_0_r.
    split; [reflexivity|].
    split; [apply list_lookup_insert_eq; lia|].
    split; [intros i Hi; lia|].
    intros j Hj. apply list_lookup_insert_ne. lia.
  - cbv zeta.
    specialize (IH (S k)
      (<[pos := nth (Z.to_nat (rand_index RAND_MAX (rand k))) charset x00]> dest)
      (S pos)).
    rewrite length_insert in IH. specialize (IH ltac:(lia)). cbv zeta in IH.
    destruct IH as (Hl & Hend & Hmid & Hout).
    split; [exact Hl|].
    split; [rewrite <- Hend; f_equal; lia|].
    split.
    + intros [|i] Hi.
      * rewrite !Nat.add_0_r. rewrite (Hout pos) by lia.
        apply list_lookup_insert_eq. lia.
      * replace (pos + S i)%nat with (S pos + i)%nat by lia.
        rewrite Hmid by lia.
        replace (k + S i)%nat with (S k + i)%nat by lia. reflexivity.
    + intros j Hj. rewrite Hout by lia.
      apply list_lookup_insert_ne. lia.
Qed.

Lemma byte_eqb_x00 (c : byte) : Byte.eqb c x00 = true <-> c = x00.
Proof.
  split; [apply Byte.byte_dec_bl | apply Byte.byte_dec_lb].
Qed.

Lemma strlen_spec (s : list byte) :
  (strlen s <= length s)%nat
  /\ (forall i c, (i < strlen s)%nat -> s !! i = Some c -> c <> x00)
  /\ (forall n, s !! n = Some x00 -> (strlen s <= n)%nat)
  /\ ((strlen s < length s)%nat -> s !! strlen s = Some x00).
Proof.
  induction s as [|c s (IH1 & IH2 & IH3 & IH4)]; cbn [strlen length].
  - split; [lia|]. split; [intros; lia|].
    split; [intros n H; discriminate | lia].
  - destruct (Byte.eqb c x00) eqn:E.
    + split; [lia|]. split; [intros; lia|]. split; [intros; lia|].
      intros _. apply byte_eqb_x00 in E. subst c. reflexivity.
    + split; [lia|]. split; [|split; [|intros H; cbn; apply IH4; lia]].
      * intros [|i] c' Hi; cbn.
        -- intros [= <-] ->. rewrite (proj2 (byte_eqb_x00 x00) eq_refl) in E.
           discriminate.
        -- apply IH2. lia.
      * intros [|n]; cbn.
        -- intros [= ->]. rewrite (proj2 (byte_eqb_x00 x00) eq_refl) in E.
           discriminate.
        -- intros H. apply IH3 in H. lia.
Qed.

(** X14.  [rand_str] stores [length] characters and a NUL behind them, and
    leaves the rest of the array alone.  A character is a digit or a
    lower-case letter unless [rand()] returned [RAND_MAX]: the index is then
    36, the NUL that ends [charset], and the string stops there.  The
    string is [length] characters long exactly when no call returned
    [RAND_MAX], and never longer. *)
Theorem rand_str_spec (RAND_MAX : Z) (rand : nat -> Z) (dest : list byte)
    (n : nat) :
  0 < RAND_MAX -> (forall k, 0 <= rand k <= RAND_MAX) ->
  (n < length dest)%nat ->
  let s := rand_str RAND_MAX rand dest n in
  length s = length dest
  /\ s !! n = Some x00
  /\ (forall i, (i < n)%nat ->
        exists c, s !! i = Some c
                  /\ (c = x00 <-> rand i = RAND_MAX)
                  /\ (rand i < RAND_MAX -> In c (take 36 charset)))
  /\ (forall j, (n < j)%nat -> s !! j = dest !! j)
  /\ (strlen s <= n)%nat
  /\ (strlen s = n <-> forall i, (i < n)%nat -> rand i <> RAND_MAX).
Proof.
  intros HM Hrand Hn s.
  destruct (rand_str_from_spec RAND_MAX rand n 0 dest 0 ltac:(lia))
    as (Hl & Hend & Hmid & Hout).
  fold (rand_str RAND_MAX rand dest n) in Hl, Hend, Hmid, Hout.
  fold s in Hl, Hend, Hmid, Hout. cbn [Nat.add] in Hend, Hmid.
  assert (forall i, (i < n)%nat ->
            exists c, s !! i = Some c
                      /\ (c = x00 <-> rand i = RAND_MAX)
                      /\ (rand i < RAND_MAX -> In c (take 36 charset)))
    as Hchars.
  { intros i Hi. eexists. split; [apply Hmid; exact Hi|].
    destruct (rand_index_range RAND_MAX (rand i) HM (Hrand i)) as (Hr & Hiff).
    destruct (charset_nth _ Hr) as (Hnul & Hin).
    split; [rewrite Hnul; exact Hiff|].
    intros Hlt. apply Hin. lia. }
  destruct (strlen_spec s) as (_ & Hbefore & Hle & Hstop).
  split; [exact Hl|]. split; [exact Hend|]. split; [exact Hchars|].
  split; [intros j Hj; apply Hout; lia|].
  split; [apply Hle; exact Hend|].
  split.
  - intros E i Hi. destruct (Hchars i Hi) as (c & Hc & Hiff & _).
    intros Hr. apply Hiff in Hr. subst c.
    apply (Hbefore i x00); [lia | exact Hc | reflexivity].
  - intros Hall. specialize (Hle n Hend).
    destruct (Nat.eq_dec (strlen s) n) as [|Hne]; [assumption|].
    exfalso. specialize (Hstop ltac:(lia)).
    destruct (Hchars (strlen s) ltac:(lia)) as (c & Hc & Hiff & _).
    rewrite Hc in Hstop. injection Hstop as ->.
    apply (Hall (strlen s)); [lia|]. apply Hiff. reflexivity.
Qed.

(** X14 with [RAND_MAX] at 2^31 - 1 and a generator that returns 12345 and
    [RAND_MAX] in turn: four characters asked for in an array of eight. *)
Lemma rand_str_spec_witness :
  length (rand_str 2147483647
            (fun k => if Nat.even k then 12345 else 2147483647)
            (replicate 8 xff) 4) = 8%nat
  /\ (strlen (rand_str 2147483647%Z
                (fun k => if Nat.even k then 12345 else 2147483647)%Z
                (replicate 8 xff) 4) <= 4)%nat.
Proof.
  assert (0 < 2147483647) as H1 by (vm_compute; reflexivity).
  assert (forall k : nat,
             0 <= (if Nat.even k then 12345 else 2147483647) <= 2147483647)
    as H2 by (intros k; destruct (Nat.even k); lia).
  assert (4 < length (replicate 8 xff))%nat as H3 by (vm_compute; lia).
  destruct (rand_str_spec 2147483647
              (fun k => if Nat.even k then 12345 else 2147483647)
              (replicate 8 xff) 4 H1 H2 H3)
    as (A & _ & _ & _ & B & _).
  exact (conj A B).
Defined.

End RandStr.

(** ** The default serial port *)

Section Ports.

Lemma starts_with_spec (needle hay : list byte) :
  starts_with needle hay = true <-> exists post, hay = needle ++ post.
Proof.
  revert hay. induction needle as [|n needle IH]; intros hay; cbn.
  - split; [intros _; exists hay; reflexivity | reflexivity].
  - destruct hay as [|h hay].
    + split; [discriminate | intros (post & H); discriminate].
    + rewrite andb_true_iff, IH. split.
      * intros (E & post & ->). apply Byte.byte_dec_bl in E. subst h.
        exists post. reflexivity.
      * intros (post & [= -> ->]). split; [apply Byte.byte_dec_lb; reflexivity|].
        exists post. reflexivity.
Qed.

(** [strstr] finds the needle exactly when it occurs. *)
Lemma strstr_spec (hay needle : list byte) :
  strstr hay needle = true <-> exists pre post, hay = pre ++ needle ++ post.
Proof.
  induction hay as [|h hay IH]; cbn [strstr]; rewrite orb_true_iff,
    starts_with_spec.
  - split.
    + intros [(post & H)|H]; [|discriminate]. exists [], post. exact H.
    + intros (pre & post & H). left.
      destruct pre; [exists post; exact H | discriminate].
  - rewrite IH. split.
    + intros [(post & H)|(pre & post & H)].
      * exists [], post. exact H.
      * exists (h :: pre), post. rewrite H. reflexivity.
    + intros ([|x pre] & post & H).
      * left. exists post. exact H.
      * right. injection H as -> ->. exists pre, post. reflexivity.
Qed.

Lemma scan_ports_spec (port_list : list sp_port) (i d : Z) :
  (forall j p, port_list !! j = Some p -> looks_like_unicorn p = true ->
               i + Z.of_nat j <= scan_ports port_list i d)
  /\ ((exists j p, scan_ports port_list i d = i + Z.of_nat j
                   /\ port_list !! j = Some p
                   /\ looks_like_unicorn p = true)
      \/ (scan_ports port_list i d = d
          /\ Forall (fun p => looks_like_unicorn p = false) port_list)).
Proof.
  revert i d. induction port_list as [|p ps IH]; intros i d; cbn [scan_ports].
  - split; [intros j q H; discriminate|]. right. split; [reflexivity|].
    constructor.
  - destruct (IH (i + 1) (if looks_like_unicorn p then i else d))
      as (Hmax & Hres).
    split.
    + intros [|j] q; cbn.
      * intros [= <-] Hq. rewrite Hq in *.
        destruct Hres as [(j & q & -> & _)|(-> & _)]; lia.
      * intros Hj Hq. specialize (Hmax j q Hj Hq). lia.
    + destruct Hres as [(j & q & E & Hj & Hq)|(E & Hnone)].
      * left. exists (S j), q. split; [rewrite E; lia|]. split; assumption.
      * destruct (looks_like_unicorn p) eqn:Ep.
        -- left. exists 0%nat, p. rewrite E. split; [lia|].
           split; [reflexivity | exact Ep].
        -- right. split; [exact E|]. constructor; assumption.
Qed.

(** X15.  The port offered as the default is the last one in the list whose
    name or description contains "UN"; when none does, or the list is
    empty, it is port 0. *)
Theorem default_port_spec (port_list : list sp_port) :
  (forall j p, port_list !! j = Some p -> looks_like_unicorn p = true ->
               Z.of_nat j <= default_port port_list)
  /\ ((exists j p, default_port port_list = Z.of_nat j
                   /\ port_list !! j = Some p
                   /\ (exists pre post,
                          port_name p = pre ++ UN ++ post
                          \/ port_description p = pre ++ UN ++ post))
      \/ (default_port port_list = 0
          /\ Forall (fun p => looks_like_unicorn p = false) port_list)).
Proof.
  destruct (scan_ports_spec port_list 0 0) as (Hmax & Hres).
  split; [exact Hmax|].
  destruct Hres as [(j & p & E & Hj & Hp)|H]; [left | right; exact H].
  exists j, p. split; [exact E|]. split; [exact Hj|].
  unfold looks_like_unicorn in Hp. apply orb_true_iff in Hp.
  destruct Hp as [Hp|Hp]; apply strstr_spec in Hp;
    destruct Hp as (pre & post & Hp); exists pre, post; tauto.
Qed.

End Ports.

(** * The two threads *)

(** ** The machine of the two threads *)

Section RaceFacts.

Import Race.


(** *** Under any schedule: a bound from below *)





(** *** Under a schedule that is undisturbed *)





(** *** Undisturbed: the floats [main] stores *)





(** *** A schedule in two parts *)



(** *** [main] on its own

    With no access of the callback in between, the machine computes what
    the loop of [append_sample] computes. *)


End RaceFacts.

(** ** The producer and the callback on [outputLimit] *)

Section TwoThreads.

Context {R : Resampler}.

Import Race.

Lemma raised_S (l : Q) (dat : list Q) (n : nat) :
  raised l dat (S n) = cmax (raised l dat n) (Qabs (nth n dat 0%Q)).
Proof. unfold raised. rewrite seq_S, fold_left_app. reflexivity. Qed.


Lemma raised_mono (l : Q) (dat : list Q) (n k : nat) :
  (n <= k)%nat -> (raised l dat n <= raised l dat k)%Q.
Proof.
  induction 1 as [|k Hk IH]; [apply Qle_refl|].
  rewrite raised_S. eapply Qle_trans; [exact IH | apply cmax_l].
Qed.





(** The callback on its own computes the maximum that [drain] computes. *)
Lemma solo_audio (out : list Q) (n : nat) (l : Q) (k : task) (st : list Q) :
  (3 * length out <= n)%nat ->
  exec {| limit := l; main := k;
          audio := {| todo := audio_call out; at_pc := Ready |};
          stored := st |}
       (replicate n Audio)
  = {| limit := fold_left (fun l x => cmax l (Qabs x)) out l;
       main := k;
       audio := {| todo := []; at_pc := Ready |};
       stored := st |}.
Proof.
  revert n l. induction out as [|x out IH]; intros n l Hn.
  - cbn [audio_call map fold_left]. clear Hn.
    induction n as [|n IHn]; [reflexivity|]. exact IHn.
  - cbn [length] in Hn. cbn [audio_call map fold_left].
    fold (audio_call out).
    destruct n as [|[|n]]; try lia.
    unfold cmax at 2.
    destruct (qlt (Qabs x) l) eqn:Eq.
    + destruct n as [|n]; [lia|].
      cbn [replicate exec fold_left turn access limit main audio stored
           todo at_pc tl]. rewrite Eq.
      cbn [turn access limit main audio stored todo at_pc tl].
      fold (exec {| limit := l; main := k;
                    audio := {| todo := audio_call out; at_pc := Ready |};
                    stored := st |}
                 (replicate n Audio)).
      apply IH. lia.
    + cbn [replicate exec fold_left turn access limit main audio stored
           todo at_pc tl]. rewrite Eq.
      cbn [turn access limit main audio stored todo at_pc tl].
      fold (exec {| limit := Qabs x; main := k;
                    audio := {| todo := audio_call out; at_pc := Ready |};
                    stored := st |}
                 (replicate n Audio)).
      apply IH. lia.
Qed.



End TwoThreads.



